(** * Diff-artifact path parsing and comment assembly

    A shallow embedding of [bitbucket_comments.py] and
    [parse-diff-files.py]: the two path parsers, the batch parser, the
    comment formatter, the client of the review service and the two
    [main] functions, followed by the properties of the specification
    that concern them and by further properties read off the code.

    Text is modelled as [list ascii]: a Python [str] whose code points
    are below 256.  In that range the only characters matched by the
    regular expression class [\d] are ['0'..'9'], and the characters
    removed by [str.strip()] are those listed in [is_space]. *)

From Stdlib Require Import Ascii String DecimalString DecimalPos.
From Stdlib Require Import List ZArith Lia Bool Arith.
Import ListNotations.

Definition str := list ascii.

(** Literals: [L "abc"] is the text [abc]. *)
Abbreviation L := list_ascii_of_string.

Definition NL : ascii := "010"%char.

(** ** Python string primitives *)

Module Py.

(** [s.startswith(p)] *)
Fixpoint starts_with (p s : str) : bool :=
  match p, s with
  | [], _ => true
  | _ :: _, [] => false
  | a :: p', b :: s' => Ascii.eqb a b && starts_with p' s'
  end.

(** [p in s] *)
Fixpoint contains (p s : str) : bool :=
  starts_with p s ||
  match s with
  | [] => false
  | _ :: s' => contains p s'
  end.

(** [s.replace(old, new)] for a non-empty [old]: scan from the left;
    at an occurrence of [old] emit [new] and jump over the occurrence,
    otherwise copy one character.  [skip] counts the characters of the
    current occurrence still to be jumped over. *)
Fixpoint replace_from (old new : str) (skip : nat) (s : str) : str :=
  match s with
  | [] => []
  | c :: s' =>
      match skip with
      | S k => replace_from old new k s'
      | O =>
          if starts_with old s
          then new ++ replace_from old new (length old - 1) s'
          else c :: replace_from old new 0 s'
      end
  end.

Definition replace (old new s : str) : str := replace_from old new 0 s.

(** [s.split(sep)] for a one-character separator. *)
Fixpoint split (sep : ascii) (s : str) : list str :=
  match s with
  | [] => [[]]
  | c :: s' =>
      if Ascii.eqb c sep then [] :: split sep s'
      else match split sep s' with
           | t :: ts => (c :: t) :: ts
           | [] => [[c]]
           end
  end.

(** [sep.join(parts)] *)
Fixpoint join (sep : str) (parts : list str) : str :=
  match parts with
  | [] => []
  | [x] => x
  | x :: rest => x ++ sep ++ join sep rest
  end.

(** Whitespace as [str.strip()] sees it, for code points below 256. *)
Definition is_space (c : ascii) : bool :=
  let n := nat_of_ascii c in
  ((9 <=? n) && (n <=? 13)) || ((28 <=? n) && (n <=? 32))
  || (n =? 133) || (n =? 160).

Fixpoint lstrip (s : str) : str :=
  match s with
  | c :: s' => if is_space c then lstrip s' else s
  | [] => []
  end.

Definition rstrip (s : str) : str := rev (lstrip (rev s)).

(** [s.strip()] *)
Definition strip (s : str) : str := rstrip (lstrip s).

(** [os.path.basename(p)] on POSIX: what follows the last ['/'].
    [cand] is the text after the last slash seen so far. *)
Fixpoint basename_from (cand p : str) : str :=
  match p with
  | [] => cand
  | c :: p' =>
      if Ascii.eqb c "/" then basename_from p' p' else basename_from cand p'
  end.

Definition basename (p : str) : str := basename_from p p.

(** The class [\d]. *)
Definition is_digit (c : ascii) : bool :=
  let n := nat_of_ascii c in (48 <=? n) && (n <=? 57).

Definition digit_value (c : ascii) : Z := Z.of_nat (nat_of_ascii c) - 48.

(** Decimal value of a run of digits, most significant first. *)
Fixpoint digits_value_from (acc : Z) (s : str) : Z :=
  match s with
  | [] => acc
  | c :: s' => digits_value_from (10 * acc + digit_value c) s'
  end.

Definition digits_value (s : str) : Z := digits_value_from 0 s.

(** [str(n)] and the [{n}] of an f-string, for an [int]. *)
Definition str_of_int (n : Z) : str :=
  L (NilZero.string_of_int (Z.to_int n)).

(** Truth value of a string: non-empty. *)
Definition truthy (s : str) : bool :=
  match s with [] => false | _ :: _ => true end.

End Py.

Import Py.

(** ** The range pattern

    [re.search(r'\.(\d+-\d+)\.diff$', filename)].  [match_range_here]
    tries the pattern at the start of its argument and returns group 1.
    Each [\d+] is followed in the pattern by a character that is not a
    digit, so the only length a greedy, backtracking [\d+] can succeed
    with is the whole run of digits; [span_digits] takes that run.
    [$] matches at the end of the text and before a final newline. *)

Fixpoint span_digits (s : str) : str * str :=
  match s with
  | c :: s' =>
      if is_digit c
      then let (d, r) := span_digits s' in (c :: d, r)
      else ([], s)
  | [] => ([], [])
  end.

Fixpoint strip_prefix (p s : str) : option str :=
  match p, s with
  | [], _ => Some s
  | _ :: _, [] => None
  | a :: p', b :: s' => if Ascii.eqb a b then strip_prefix p' s' else None
  end.

Definition at_dollar (s : str) : bool :=
  match s with
  | [] => true
  | [c] => Ascii.eqb c NL
  | _ => false
  end.

Definition match_range_here (s : str) : option str :=
  match s with
  | c :: s1 =>
      if Ascii.eqb c "." then
        match span_digits s1 with
        | ((_ :: _) as d1, c2 :: s3) =>
            if Ascii.eqb c2 "-" then
              match span_digits s3 with
              | ((_ :: _) as d2, s4) =>
                  match strip_prefix (L ".diff") s4 with
                  | Some s5 =>
                      if at_dollar s5 then Some (d1 ++ "-"%char :: d2) else None
                  | None => None
                  end
              | ([], _) => None
              end
            else None
        | _ => None
        end
      else None
  | [] => None
  end.

(** [re.search]: the leftmost position at which the pattern matches. *)
Fixpoint search_range (s : str) : option str :=
  match match_range_here s with
  | Some g => Some g
  | None =>
      match s with
      | [] => None
      | _ :: s' => search_range s'
      end
  end.

(** ** Exceptions and the file system *)

Inductive exn : Type :=
| ValueError
| Uncaught (description : str).

Inductive outcome (A : Type) : Type :=
| Return (a : A)
| Raise (e : exn).

Arguments Return {A} a.
Arguments Raise {A} e.

Definition bind {A B : Type} (m : outcome A) (k : A -> outcome B) : outcome B :=
  match m with
  | Return a => k a
  | Raise e => Raise e
  end.

Notation "x <- m ;; k" := (bind m (fun x => k))
  (at level 61, m at next level, right associativity).

(** What [open(path, 'r', encoding='utf-8')] followed by [f.read()] can
    do.  [description] is [str(e)] of the exception raised. *)
Inductive read_result : Type :=
| ReadOk (text : str)
| NotFound (description : str)          (* FileNotFoundError *)
| PermissionDenied (description : str)  (* PermissionError *)
| DecodeFailure (description : str)     (* UnicodeDecodeError *)
| OtherFailure (description : str).     (* anything else, e.g. IsADirectoryError *)

Record FileSystem : Type := {
  path_exists : str -> bool;      (* os.path.exists *)
  read_text : str -> read_result
}.

(** The [try: ... except (FileNotFoundError, PermissionError,
    UnicodeDecodeError) as e:] block shared by both parsers. *)
Definition read_content (fs : FileSystem) (file_path : str) : outcome str :=
  match read_text fs file_path with
  | ReadOk text => Return text
  | NotFound e | PermissionDenied e | DecodeFailure e =>
      Return (L "Error reading file: " ++ e)
  | OtherFailure e => Raise (Uncaught e)
  end.

(** [int(s)] on the texts this program passes to it; anything that is
    not a non-empty run of digits is reported as [ValueError]. *)
Definition py_int (s : str) : outcome Z :=
  match s with
  | [] => Raise ValueError
  | _ :: _ => if forallb is_digit s then Return (digits_value s) else Raise ValueError
  end.

(** [a, b = xs]: unpacking into exactly two names. *)
Definition unpack2 {A : Type} (xs : list A) : outcome (A * A) :=
  match xs with
  | [a; b] => Return (a, b)
  | _ => Raise ValueError
  end.

(** ** The parsed record *)

Record DiffInfo : Type := {
  filename : str;
  range : option str;
  start_line : option Z;
  end_line : option Z;
  full_path : str;
  content : str
}.

(** ** parse-diff-files.py *)

Definition parse_diff_file_path (fs : FileSystem) (file_path : str)
  : outcome DiffInfo :=
  let filename := basename file_path in
  let base_filename := replace (L ".diff") [] filename in
  let range_match := search_range filename in
  content <- read_content fs file_path ;;
  match range_match with
  | Some range_str =>
      se <- unpack2 (split "-" range_str) ;;
      let (start_line, end_line) := se in
      let name := replace ("."%char :: range_str) [] base_filename in
      s <- py_int start_line ;;
      e <- py_int end_line ;;
      Return {| filename := name;
                range := Some range_str;
                start_line := Some s;
                end_line := Some e;
                full_path := file_path;
                content := content |}
  | None =>
      Return {| filename := base_filename;
                range := None;
                start_line := None;
                end_line := None;
                full_path := file_path;
                content := content |}
  end.

(** ** bitbucket_comments.py *)

(** [map(int, xs)] consumed by a two-name unpacking. *)
Definition unpack2_ints (xs : list str) : outcome (Z * Z) :=
  match xs with
  | [a; b] => s <- py_int a ;; e <- py_int b ;; Return (s, e)
  | _ => Raise ValueError
  end.

Definition parse_diff_file (fs : FileSystem) (file_path : str)
  : outcome (option DiffInfo) :=
  if negb (path_exists fs file_path) then Return None
  else
    let filename := basename file_path in
    let base_filename := replace (L ".diff") [] filename in
    let range_match := search_range filename in
    content <- read_content fs file_path ;;
    match range_match with
    | Some range_str =>
        se <- unpack2_ints (split "-" range_str) ;;
        let (start_line, end_line) := se in
        Return (Some {| filename := replace ("."%char :: range_str) [] base_filename;
                        range := Some range_str;
                        start_line := Some start_line;
                        end_line := Some end_line;
                        full_path := file_path;
                        content := content |})
    | None =>
        Return (Some {| filename := base_filename;
                        range := None;
                        start_line := None;
                        end_line := None;
                        full_path := file_path;
                        content := content |})
    end.

(** The loop of [parse_diff_files]; [results] is the list being
    appended to. *)
Fixpoint parse_loop (fs : FileSystem) (file_paths : list str)
  (results : list DiffInfo) : outcome (list DiffInfo) :=
  match file_paths with
  | [] => Return results
  | file_path :: rest =>
      if negb (truthy file_path) then parse_loop fs rest results
      else
        parsed_info <- parse_diff_file fs file_path ;;
        match parsed_info with
        | Some d => parse_loop fs rest (results ++ [d])
        | None => parse_loop fs rest results
        end
  end.

Definition parse_diff_files (fs : FileSystem) (comma_separated_paths : str)
  : outcome (list DiffInfo) :=
  let file_paths := map strip (split "," comma_separated_paths) in
  parse_loop fs file_paths [].

(** The loop of [main] in parse-diff-files.py, keeping the records it
    prints, in the order it prints them. *)
Fixpoint tool_loop (fs : FileSystem) (file_paths : list str)
  : outcome (list DiffInfo) :=
  match file_paths with
  | [] => Return []
  | file_path :: rest =>
      if negb (truthy file_path) then tool_loop fs rest
      else
        parsed_info <- parse_diff_file_path fs file_path ;;
        printed <- tool_loop fs rest ;;
        Return (parsed_info :: printed)
  end.

Definition tool_main (fs : FileSystem) (input_files : str)
  : outcome (list DiffInfo) :=
  tool_loop fs (map strip (split "," input_files)).

(** [format_comment]: [parts] is the list the source builds. *)
Definition comment_parts (comment filename : str) (line : option Z)
  : list str :=
  [comment]
  ++ (if truthy filename then [L "File: `" ++ filename ++ L "`"] else [])
  ++ (match line with
      | Some n => [L "Line: " ++ str_of_int n]
      | None => []
      end).

Definition format_comment (comment filename : str) (line : option Z) : str :=
  join [NL] (comment_parts comment filename line).

(** ** The body of the posting loop of [main] *)

(** [diff['range']] used as a condition. *)
Definition has_range (d : DiffInfo) : bool :=
  match range d with
  | Some r => truthy r
  | None => false
  end.

(** The third argument of the call of [format_comment]. *)
Definition display_line (d : DiffInfo) : option Z :=
  if has_range d then start_line d else None.

(** [line_number], the third argument of [post_inline_comment]. *)
Definition line_number (d : DiffInfo) : option Z :=
  if has_range d then start_line d else Some 1%Z.

(** [diff['content'] and '+++' in diff['content']] *)
Definition wants_snippet (content : str) : bool :=
  truthy content && contains (L "+++") content.

Definition diff_lines (content : str) : list str :=
  firstn 8 (split NL content).

Definition fenced (snippet : str) : str :=
  [NL; NL] ++ L "```" ++ [NL] ++ snippet ++ [NL] ++ L "```".

Definition comment_text (default_comment : str) (d : DiffInfo) : str :=
  let comment_text :=
    format_comment default_comment (filename d) (display_line d) in
  if wants_snippet (content d)
  then comment_text ++ fenced (join [NL] (diff_lines (content d)))
  else comment_text.

(** [args.comment or "Code review finding"] *)
Definition default_comment (comment : option str) : str :=
  match comment with
  | Some c => if truthy c then c else L "Code review finding"
  | None => L "Code review finding"
  end.

(** ** Specification-side vocabulary *)

(** [s.find(p)]: index of the leftmost occurrence of [p] in [s]. *)
Fixpoint first_index (p s : str) : option nat :=
  if starts_with p s then Some 0
  else match s with
       | [] => None
       | _ :: s' => option_map S (first_index p s')
       end.

(** The working name as the specification words it: the filename with
    a trailing [.diff] removed when there is one, unchanged otherwise. *)
Definition spec_working_name (name : str) : str :=
  match strip_prefix (rev (L ".diff")) (rev name) with
  | Some r => rev r
  | None => name
  end.

(** The logical filename as the specification words it for a name that
    ends in [.<range>.diff]: the working name without its final
    [.<range>]. *)
Definition spec_logical_filename (range_str name : str) : str :=
  let w := spec_working_name name in
  firstn (length w - S (length range_str)) w.

(** The remaining tokens of a comma-separated list: split on commas,
    trimmed, empty ones dropped. *)
Definition tokens (csv : str) : list str :=
  filter truthy (map strip (split "," csv)).

(** The content both parsers store for a read that they survive. *)
Definition stored_content (r : read_result) : option str :=
  match r with
  | ReadOk text => Some text
  | NotFound e | PermissionDenied e | DecodeFailure e =>
      Some (L "Error reading file: " ++ e)
  | OtherFailure _ => None
  end.

Definition all_digits (s : str) : bool := forallb is_digit s.

(** The fields of a record that do not come from the file's content,
    computed from the path alone. *)
Definition range_of_path (file_path : str) : option str :=
  search_range (basename file_path).

Definition name_of_path (file_path : str) : str :=
  let base := replace (L ".diff") [] (basename file_path) in
  match range_of_path file_path with
  | Some g => replace ("."%char :: g) [] base
  | None => base
  end.

Definition start_of_range (g : str) : Z := digits_value (fst (span_digits g)).

Definition end_of_range (g : str) : Z :=
  digits_value (skipn 1 (snd (span_digits g))).

Definition record_of (file_path text : str) : DiffInfo :=
  {| filename := name_of_path file_path;
     range := range_of_path file_path;
     start_line := option_map start_of_range (range_of_path file_path);
     end_line := option_map end_of_range (range_of_path file_path);
     full_path := file_path;
     content := text |}.

(** Group 1 of a match: two non-empty runs of digits around a dash. *)
Definition range_shape (g : str) : Prop :=
  exists d1 d2, g = d1 ++ "-"%char :: d2 /\ d1 <> [] /\ d2 <> [] /\
                all_digits d1 = true /\ all_digits d2 = true.

(** Two records agree on everything that is not file content. *)
Definition same_path_fields (d1 d2 : DiffInfo) : Prop :=
  filename d1 = filename d2 /\ range d1 = range d2 /\
  start_line d1 = start_line d2 /\ end_line d1 = end_line d2.

(** ** Sample file systems *)

(** No path exists; every read fails with [FileNotFoundError]. *)
Definition fs_absent : FileSystem :=
  {| path_exists := fun _ => false;
     read_text := fun p =>
       NotFound (L "[Errno 2] No such file or directory: '" ++ p ++ L "'") |}.

(** Every path exists and reads as [text]. *)
Definition fs_present (text : str) : FileSystem :=
  {| path_exists := fun _ => true;
     read_text := fun _ => ReadOk text |}.

(** Every path exists but none may be read. *)
Definition fs_locked : FileSystem :=
  {| path_exists := fun _ => true;
     read_text := fun p =>
       PermissionDenied (L "[Errno 13] Permission denied: '" ++ p ++ L "'") |}.

(** ** The client of the review service

    [BitbucketClient.__init__], [test_connection] and
    [post_inline_comment].  The environment is what [os.getenv] sees
    after [load_dotenv()]; the network is asked what a call does, given
    the calls made before it. *)

Definition Env : Type := str -> option str.

(** [os.getenv(key, default)] *)
Definition getenv (env : Env) (key default : str) : str :=
  match env key with
  | Some v => v
  | None => default
  end.

(** [credentials.encode()]: UTF-8, for code points below 256. *)
Definition utf8_char (c : ascii) : list ascii :=
  match c with
  | Ascii b0 b1 b2 b3 b4 b5 b6 b7 =>
      if b7
      then [Ascii b6 b7 false false false false true true;
            Ascii b0 b1 b2 b3 b4 b5 false true]
      else [c]
  end.

Definition utf8_encode (s : str) : list ascii := flat_map utf8_char s.

(** The base64 alphabet, and the character of six bits (most
    significant first). *)
Definition b64_alphabet : str :=
  L "ABCDEFGHIJKLMNOPQRSTUVWXYZabcdefghijklmnopqrstuvwxyz0123456789+/".

Definition bit (b : bool) : nat := if b then 1 else 0.

Definition sextet (x5 x4 x3 x2 x1 x0 : bool) : ascii :=
  nth (32 * bit x5 + 16 * bit x4 + 8 * bit x3 + 4 * bit x2 + 2 * bit x1 + bit x0)
      b64_alphabet "="%char.

(** [base64.b64encode]: three bytes give four characters; a final
    group of one or two bytes is padded with [=]. *)
Fixpoint b64encode (bytes : list ascii) : str :=
  match bytes with
  | [] => []
  | [Ascii a0 a1 a2 a3 a4 a5 a6 a7] =>
      [sextet a7 a6 a5 a4 a3 a2; sextet a1 a0 false false false false;
       "="%char; "="%char]
  | [Ascii a0 a1 a2 a3 a4 a5 a6 a7; Ascii b0 b1 b2 b3 b4 b5 b6 b7] =>
      [sextet a7 a6 a5 a4 a3 a2; sextet a1 a0 b7 b6 b5 b4;
       sextet b3 b2 b1 b0 false false; "="%char]
  | Ascii a0 a1 a2 a3 a4 a5 a6 a7 :: Ascii b0 b1 b2 b3 b4 b5 b6 b7
    :: Ascii c0 c1 c2 c3 c4 c5 c6 c7 :: rest =>
      sextet a7 a6 a5 a4 a3 a2 :: sextet a1 a0 b7 b6 b5 b4
      :: sextet b3 b2 b1 b0 c7 c6 :: sextet c5 c4 c3 c2 c1 c0
      :: b64encode rest
  end.

Record Client : Type := {
  server : str;
  workspace : str;
  repo : str;
  username : str;
  app_password : str;
  headers : list (str * str)
}.

(** The value of the [Authorization] header. *)
Definition authorization (username app_password : str) : str :=
  let credentials := username ++ L ":" ++ app_password in
  let encoded_credentials := b64encode (utf8_encode credentials) in
  L "Basic " ++ encoded_credentials.

(** [BitbucketClient()].  The settings are text of the kind this file
    models (code points below 256), which [credentials.encode()]
    always encodes; a setting holding surrogate-escaped bytes, for
    which that call raises, is outside the model. *)
Definition client_init (env : Env) : outcome Client :=
  let server := getenv env (L "BITBUCKET_SERVER") (L "https://api.bitbucket.org/1.0") in
  let workspace := getenv env (L "BITBUCKET_WORKSPACE") [] in
  let repo := getenv env (L "BITBUCKET_REPO") [] in
  let username := getenv env (L "BITBUCKET_USERNAME") [] in
  let app_password := getenv env (L "BITBUCKET_APP_PASSWORD") [] in
  if negb (forallb truthy [workspace; repo; username; app_password])
  then Raise ValueError
  else
    Return {| server := server;
              workspace := workspace;
              repo := repo;
              username := username;
              app_password := app_password;
              headers :=
                [(L "Authorization", authorization username app_password);
                 (L "Content-Type", L "application/json");
                 (L "Accept", L "application/json")] |}.

(** The [json=] body of a post. *)
Record Payload : Type := {
  payload_content : str;
  payload_line_to : option Z;
  payload_filename : str
}.

Inductive http_method : Type := GET | POST.

(** One call of [requests.get] or [requests.post]. *)
Record Call : Type := {
  call_method : http_method;
  call_url : str;
  call_headers : list (str * str);
  call_json : option Payload;
  call_timeout : Z
}.

(** A response, as far as the program looks at it: [json_is_object]
    says that [response.json()] returns a dictionary. *)
Record Response : Type := {
  status_code : Z;
  response_text : str;
  json_is_object : bool
}.

Inductive http_result : Type :=
| Responded (r : Response)
| RequestFailed (description : str)   (* requests.exceptions.RequestException *)
| OtherError (description : str).     (* any other exception *)

(** What a call does, given the calls made before it. *)
Definition Network : Type := list Call -> Call -> http_result.

(** [response.raise_for_status()] raises for a status from 400 to 599. *)
Definition raises_for_status (r : Response) : bool :=
  ((400 <=? status_code r) && (status_code r <? 600))%Z.

(** [test_connection]: the call it makes and its result; every
    exception is caught.  Console output is not modelled: the two
    calls of [print] are taken to succeed.  (One that raised inside the
    [try] would turn the result into [False]; one that raised in the
    handler would escape.) *)
Definition test_connection_call (bb : Client) : Call :=
  {| call_method := GET;
     call_url := server bb ++ L "/user";
     call_headers := headers bb;
     call_json := None;
     call_timeout := 10 |}.

Definition test_connection (net : Network) (history : list Call) (bb : Client)
  : bool :=
  match net history (test_connection_call bb) with
  | Responded r => negb (raises_for_status r) && json_is_object r
  | RequestFailed _ | OtherError _ => false
  end.

(** [post_inline_comment]: the call it makes and its result; only
    [RequestException] is caught. *)
Definition post_call (bb : Client) (pr_id : Z) (file_path : str)
  (line : option Z) (comment_text : str) : Call :=
  {| call_method := POST;
     call_url := server bb ++ L "/repositories/" ++ workspace bb ++ L "/"
                 ++ repo bb ++ L "/pullrequests/" ++ str_of_int pr_id
                 ++ L "/comments";
     call_headers := headers bb;
     call_json := Some {| payload_content := comment_text;
                          payload_line_to := line;
                          payload_filename := file_path |};
     call_timeout := 30 |}.

Definition post_inline_comment (net : Network) (history : list Call)
  (bb : Client) (pr_id : Z) (file_path : str) (line : option Z)
  (comment_text : str) : outcome bool :=
  match net history (post_call bb pr_id file_path line comment_text) with
  | Responded r =>
      Return ((status_code r =? 200)%Z || (status_code r =? 201)%Z)
  | RequestFailed _ => Return false
  | OtherError e => Raise (Uncaught e)
  end.

(** ** [main] of bitbucket_comments.py, after [parse_args] *)

Record Args : Type := {
  arg_pr : Z;
  arg_diff_files : str;
  arg_comment : option str;
  arg_test : bool
}.

(** How a run ends: [sys.exit(code)], or an exception nobody caught. *)
Inductive ending : Type :=
| Exit (code : Z)
| Crash (e : exn).

(** A run: the network calls it made, in order, and how it ended. *)
Record Run : Type := {
  calls : list Call;
  ended : ending
}.

(** The posting loop: [history] grows with each call,
    [success_count] with each accepted one. *)
Fixpoint post_loop (net : Network) (bb : Client) (pr : Z) (comment : str)
  (diff_data : list DiffInfo) (history : list Call) (success_count : nat)
  : list Call * outcome nat :=
  match diff_data with
  | [] => (history, Return success_count)
  | diff :: rest =>
      let text := comment_text comment diff in
      let line := line_number diff in
      let call := post_call bb pr (filename diff) line text in
      match post_inline_comment net history bb pr (filename diff) line text with
      | Return success =>
          post_loop net bb pr comment rest (history ++ [call])
            (if success then S success_count else success_count)
      | Raise e => (history ++ [call], Raise e)
      end
  end.

Definition main (env : Env) (fs : FileSystem) (net : Network) (args : Args)
  : Run :=
  match client_init env with
  | Raise ValueError => {| calls := []; ended := Exit 1 |}
  | Raise e => {| calls := []; ended := Crash e |}
  | Return bb_client =>
      if arg_test args then
        let success := test_connection net [] bb_client in
        {| calls := [test_connection_call bb_client];
           ended := Exit (if success then 0 else 1) |}
      else
        match parse_diff_files fs (arg_diff_files args) with
        | Raise e => {| calls := []; ended := Crash e |}
        | Return [] => {| calls := []; ended := Exit 1 |}
        | Return diff_data =>
            match post_loop net bb_client (arg_pr args)
                    (default_comment (arg_comment args)) diff_data [] 0 with
            | (history, Return success_count) =>
                {| calls := history;
                   ended := Exit (if success_count =? length diff_data
                                  then 0 else 1) |}
            | (history, Raise e) => {| calls := history; ended := Crash e |}
            end
        end
  end.

(** ** [main] of parse-diff-files.py

    A run is the exit status and the texts printed, one per call of
    [print]. *)

(** The [{...}] of an f-string for a value that is an [int] or [None]. *)
Definition str_of_optional_int (n : option Z) : str :=
  match n with
  | Some z => str_of_int z
  | None => L "None"
  end.

(** The six calls of [print] for one record. *)
Definition print_record (parsed_info : DiffInfo) : list str :=
  [filename parsed_info;
   (if has_range parsed_info
    then L "Range: "
         ++ match range parsed_info with Some r => r | None => L "None" end
         ++ L " (lines " ++ str_of_optional_int (start_line parsed_info)
         ++ L "-" ++ str_of_optional_int (end_line parsed_info) ++ L ")"
    else L "Range: No range found");
   L "Path: " ++ full_path parsed_info;
   L "Content:";
   content parsed_info;
   repeat "="%char 80].

(** The loop of [main]; [printed] is everything printed so far. *)
Fixpoint tool_print_loop (fs : FileSystem) (file_paths : list str)
  (printed : list str) : list str * outcome unit :=
  match file_paths with
  | [] => (printed, Return tt)
  | file_path :: rest =>
      if negb (truthy file_path) then tool_print_loop fs rest printed
      else
        match parse_diff_file_path fs file_path with
        | Return parsed_info =>
            tool_print_loop fs rest (printed ++ print_record parsed_info)
        | Raise e => (printed, Raise e)
        end
  end.

Definition tool_usage : list str :=
  [L "Usage: python3 parse-diff-files.py <comma_separated_diff_files>";
   L "Example: python3 parse-diff-files.py '/path/file.1-292.diff,/path/file.292-29999.diff'"].

(** [argv] is [sys.argv]; falling off the end of [main] is exit
    status 0. *)
Definition tool_run (fs : FileSystem) (argv : list str)
  : list str * ending :=
  match argv with
  | [_; input_files] =>
      match tool_print_loop fs (map strip (split "," input_files)) [] with
      | (printed, Return _) => (printed, Exit 0)
      | (printed, Raise e) => (printed, Crash e)
      end
  | _ => (tool_usage, Exit 1)
  end.

(** ** More specification-side vocabulary *)

(** Inverse of [sextet]: the six bits of a base64 character. *)
Fixpoint index_of (c : ascii) (s : str) : option nat :=
  match s with
  | [] => None
  | x :: s' => if Ascii.eqb c x then Some 0 else option_map S (index_of c s')
  end.

Definition unsextet (c : ascii) : option (list bool) :=
  match index_of c b64_alphabet with
  | Some n =>
      Some [Nat.testbit n 5; Nat.testbit n 4; Nat.testbit n 3;
            Nat.testbit n 2; Nat.testbit n 1; Nat.testbit n 0]
  | None => None
  end.

Definition byte_of_bits (x7 x6 x5 x4 x3 x2 x1 x0 : bool) : ascii :=
  Ascii x0 x1 x2 x3 x4 x5 x6 x7.

(** Reading base64 text back into bytes. *)
Fixpoint b64decode (s : str) : option (list ascii) :=
  match s with
  | [] => Some []
  | c1 :: c2 :: c3 :: c4 :: rest =>
      match unsextet c1, unsextet c2 with
      | Some [a7; a6; a5; a4; a3; a2], Some [a1; a0; b7; b6; b5; b4] =>
          if Ascii.eqb c3 "=" then
            match rest with
            | [] => if Ascii.eqb c4 "="
                    then Some [byte_of_bits a7 a6 a5 a4 a3 a2 a1 a0]
                    else None
            | _ :: _ => None
            end
          else
            match unsextet c3 with
            | Some [b3; b2; b1; b0; c7; c6] =>
                if Ascii.eqb c4 "=" then
                  match rest with
                  | [] => Some [byte_of_bits a7 a6 a5 a4 a3 a2 a1 a0;
                                byte_of_bits b7 b6 b5 b4 b3 b2 b1 b0]
                  | _ :: _ => None
                  end
                else
                  match unsextet c4, b64decode rest with
                  | Some [c5; c4'; c3'; c2'; c1'; c0], Some bytes =>
                      Some (byte_of_bits a7 a6 a5 a4 a3 a2 a1 a0
                            :: byte_of_bits b7 b6 b5 b4 b3 b2 b1 b0
                            :: byte_of_bits c7 c6 c5 c4' c3' c2' c1' c0
                            :: bytes)
                  | _, _ => None
                  end
            | _ => None
            end
      | _, _ => None
      end
  | _ => None
  end.

(** Reading UTF-8 bytes back into text with code points below 256. *)
Fixpoint utf8_decode (bytes : list ascii) : option str :=
  match bytes with
  | [] => Some []
  | Ascii b0 b1 b2 b3 b4 b5 b6 false :: rest =>
      option_map (cons (Ascii b0 b1 b2 b3 b4 b5 b6 false)) (utf8_decode rest)
  | Ascii b6 true false false false false true true
    :: Ascii b0 b1 b2 b3 b4 b5 false true :: rest =>
      option_map (cons (Ascii b0 b1 b2 b3 b4 b5 b6 true)) (utf8_decode rest)
  | _ => None
  end.

(** The lines of a comment as the specification words them (4.3):
    the base text, a file line for a non-empty filename, a line-number
    line for a line that is present. *)
Definition spec_comment_lines (base filename : str) (shown : option Z)
  : list str :=
  [base]
  ++ (match filename with
      | [] => []
      | _ :: _ => [L "File: `" ++ filename ++ L "`"]
      end)
  ++ (match shown with
      | Some n => [L "Line: " ++ str_of_int n]
      | None => []
      end).

(** The fenced block as the specification words it: for non-empty
    content holding [+++], the first eight lines of the content between
    two fences, after an empty line; nothing otherwise. *)
Definition spec_block (raw_content : str) : str :=
  match raw_content with
  | [] => []
  | _ :: _ =>
      if contains (L "+++") raw_content
      then [NL; NL] ++ L "```" ++ [NL]
           ++ join [NL] (firstn 8 (split NL raw_content))
           ++ [NL] ++ L "```"
      else []
  end.

(** [call] posts for the record [d]: a POST whose body has the
    record's filename, the line [line], and as text the comment lines
    with [shown] as displayed line, followed by the block. *)
Definition posted_with (base : str) (d : DiffInfo) (shown line : option Z)
  (call : Call) : Prop :=
  call_method call = POST /\
  call_json call =
    Some {| payload_content :=
              join [NL] (spec_comment_lines base (filename d) shown)
              ++ spec_block (content d);
            payload_line_to := line;
            payload_filename := filename d |}.

(** Whether a reply makes [post_inline_comment] return [True]. *)
Definition accepted (r : http_result) : bool :=
  match r with
  | Responded r => (status_code r =? 200)%Z || (status_code r =? 201)%Z
  | RequestFailed _ | OtherError _ => false
  end.

(** The verdict on each call of a sequence, each one asked after the
    calls before it. *)
Fixpoint verdicts (net : Network) (history : list Call) (cs : list Call)
  : list bool :=
  match cs with
  | [] => []
  | c :: rest => accepted (net history c) :: verdicts net (history ++ [c]) rest
  end.

(** The names of the four settings the client cannot do without. *)
Definition required_settings : list str :=
  [L "BITBUCKET_WORKSPACE"; L "BITBUCKET_REPO";
   L "BITBUCKET_USERNAME"; L "BITBUCKET_APP_PASSWORD"].

(** [s] is [t] with characters left out. *)
Inductive subsequence : str -> str -> Prop :=
| sub_nil : subsequence [] []
| sub_keep (c : ascii) (s t : str) :
    subsequence s t -> subsequence (c :: s) (c :: t)
| sub_drop (c : ascii) (s t : str) :
    subsequence s t -> subsequence s (c :: t).

(** An environment that sets the four required variables. *)
Definition env_sample : Env :=
  fun key =>
    if list_eq_dec ascii_dec key (L "BITBUCKET_WORKSPACE") then Some (L "team")
    else if list_eq_dec ascii_dec key (L "BITBUCKET_REPO") then Some (L "tool")
    else if list_eq_dec ascii_dec key (L "BITBUCKET_USERNAME") then Some (L "user")
    else if list_eq_dec ascii_dec key (L "BITBUCKET_APP_PASSWORD") then Some (L "pass")
    else None.

Definition env_empty : Env := fun _ => None.

(** Every path exists; [docs] is a directory, the rest reads as empty. *)
Definition fs_with_directory : FileSystem :=
  {| path_exists := fun _ => true;
     read_text := fun p =>
       if list_eq_dec ascii_dec p (L "docs")
       then OtherFailure (L "[Errno 21] Is a directory: 'docs'")
       else ReadOk [] |}.

(** A network that accepts every call. *)
Definition net_accepting : Network :=
  fun _ _ => Responded {| status_code := 201; response_text := [];
                          json_is_object := true |}.

(** A network that rejects the second call and accepts the others. *)
Definition net_second_rejected : Network :=
  fun history _ =>
    Responded {| status_code := if length history =? 1 then 500%Z else 200%Z;
                 response_text := []; json_is_object := true |}.

(** ** Facts about the string primitives *)

Section StringFacts.

Lemma starts_with_refl_app (p s : str) : starts_with p (p ++ s) = true.
Proof.
  induction p as [|a p IH]; simpl; [reflexivity|].
  now rewrite Ascii.eqb_refl, IH.
Qed.

Lemma starts_with_iff (p s : str) :
  starts_with p s = true <-> exists r, s = p ++ r.
Proof.
  split.
  - revert s; induction p as [|a p IH]; intros s H.
    + now exists s.
    + destruct s as [|b s]; simpl in H; [discriminate|].
      apply andb_true_iff in H as [Hab Hps].
      apply Ascii.eqb_eq in Hab; subst b.
      destruct (IH _ Hps) as [r ->]. now exists r.
  - intros [r ->]. apply starts_with_refl_app.
Qed.

Lemma contains_iff (p s : str) :
  contains p s = true <-> exists a b, s = a ++ p ++ b.
Proof.
  split.
  - induction s as [|c s IH]; simpl; intros H.
    + rewrite orb_false_r in H. apply starts_with_iff in H as [r Hr].
      now exists [], r.
    + apply orb_true_iff in H as [H|H].
      * apply starts_with_iff in H as [r Hr]. now exists [], r.
      * destruct (IH H) as (a & b & ->). now exists (c :: a), b.
  - intros (a & b & ->). induction a as [|c a IH]; simpl.
    + destruct (p ++ b) eqn:E; simpl.
      * rewrite <- E, starts_with_refl_app. reflexivity.
      * rewrite <- E, starts_with_refl_app. reflexivity.
    + rewrite IH. apply orb_true_r.
Qed.

Lemma contains_app_l (p a b : str) :
  contains p (a ++ b) = false -> contains p a = false.
Proof.
  intros H. destruct (contains p a) eqn:E; [|reflexivity].
  apply contains_iff in E as (x & y & ->).
  rewrite <- H. symmetry. apply contains_iff.
  exists x, (y ++ b). now rewrite <- !app_assoc.
Qed.

(** An occurrence of [p] at the start of [a ++ b] lies in [a], or [a]
    is a proper prefix of [p] and the rest of [p] starts [b]. *)
Lemma starts_with_app_cases (p a b : str) :
  starts_with p (a ++ b) = true ->
  starts_with p a = true \/
  (length a < length p /\ starts_with (skipn (length a) p) b = true).
Proof.
  revert a; induction p as [|x p IH]; intros a H.
  - now left.
  - destruct a as [|y a].
    + right. simpl. split; [lia|exact H].
    + simpl in H. apply andb_true_iff in H as [Hxy H].
      destruct (IH _ H) as [Hl|[Hlen Hr]].
      * left. simpl. now rewrite Hxy, Hl.
      * right. simpl. split; [lia|exact Hr].
Qed.

End StringFacts.

(** ** Facts about [replace] *)

Section ReplaceFacts.

Variables old new : str.

Lemma replace_from_skip (k : nat) (s : str) :
  replace_from old new k s = replace old new (skipn k s).
Proof.
  unfold replace. revert k; induction s as [|c s IH]; intros k.
  - now destruct k.
  - destruct k as [|k]; [reflexivity|]. simpl. apply IH.
Qed.

Lemma replace_miss (c : ascii) (s : str) :
  starts_with old (c :: s) = false ->
  replace old new (c :: s) = c :: replace old new s.
Proof.
  unfold replace. cbn [replace_from]. now intros ->.
Qed.

Lemma replace_hit (s : str) :
  old <> [] -> starts_with old s = true ->
  replace old new s = new ++ replace old new (skipn (length old) s).
Proof.
  intros Hold H. destruct s as [|c s].
  - destruct old; [contradiction|discriminate].
  - unfold replace at 1. cbn [replace_from]. rewrite H.
    rewrite replace_from_skip. destruct old as [|o old']; [contradiction|].
    simpl. now rewrite Nat.sub_0_r.
Qed.

Lemma replace_absent (s : str) :
  first_index old s = None -> replace old new s = s.
Proof.
  induction s as [|c s IH]; [reflexivity|].
  cbn [first_index]. destruct (starts_with old (c :: s)) eqn:E; [discriminate|].
  intros H. rewrite (replace_miss _ _ E). f_equal. apply IH.
  now destruct (first_index old s).
Qed.

Lemma replace_first (s : str) (i : nat) :
  old <> [] -> first_index old s = Some i ->
  replace old new s =
  firstn i s ++ new ++ replace old new (skipn (i + length old) s).
Proof.
  intros Hold. revert i; induction s as [|c s IH]; intros i.
  - cbn [first_index]. destruct (starts_with old []) eqn:E; [|discriminate].
    destruct old; [contradiction|discriminate].
  - cbn [first_index]. destruct (starts_with old (c :: s)) eqn:E.
    + intros [= <-]. now rewrite (replace_hit _ Hold E).
    + destruct (first_index old s) as [j|]; [|discriminate].
      intros [= <-]. rewrite (replace_miss _ _ E), (IH j eq_refl). reflexivity.
Qed.

End ReplaceFacts.

Lemma first_index_none_contains (p s : str) :
  first_index p s = None <-> contains p s = false.
Proof.
  induction s as [|c s IH]; cbn [first_index contains].
  - destruct (starts_with p []); simpl; split; congruence.
  - destruct (starts_with p (c :: s)); simpl; [split; congruence|].
    rewrite <- IH. destruct (first_index p s); simpl; split; congruence.
Qed.

(** A pattern whose first character does not occur again in it cannot
    overlap itself: if it is absent from [v], its first occurrence in
    [v ++ p] is the final one. *)
Lemma first_index_tail (c0 : ascii) (g v : str) :
  ~ In c0 g ->
  contains (c0 :: g) v = false ->
  first_index (c0 :: g) (v ++ c0 :: g) = Some (length v).
Proof.
  intros Hc0. induction v as [|u v IH]; intros Hv.
  - cbn [app length].
    assert (E : starts_with (c0 :: g) (c0 :: g) = true).
    { rewrite <- (app_nil_r (c0 :: g)) at 2. apply starts_with_refl_app. }
    unfold first_index. destruct g; now rewrite E.
  - cbn [contains] in Hv. apply orb_false_iff in Hv as [Hs Hv].
    change ((u :: v) ++ c0 :: g) with (u :: (v ++ c0 :: g)).
    cbn [first_index].
    destruct (starts_with (c0 :: g) (u :: v ++ c0 :: g)) eqn:E.
    + exfalso.
      change (u :: v ++ c0 :: g) with ((u :: v) ++ c0 :: g) in E.
      apply starts_with_app_cases in E as [E|[Hlen E]]; [congruence|].
      cbn [length skipn] in E.
      assert (Hsuf : forall n (t : str), incl (skipn n t) t).
      { intros n t x Hx. revert t Hx; induction n; intros t Hx;
          [exact Hx|]. destruct t; [exact Hx|]. right. now apply IHn. }
      destruct (skipn (length v) g) as [|x r] eqn:Er.
      * assert (length (skipn (length v) g) = 0) by now rewrite Er.
        rewrite length_skipn in H. simpl in Hlen. lia.
      * simpl in E. apply andb_true_iff in E as [E _].
        apply Ascii.eqb_eq in E. subst x.
        apply Hc0. apply (Hsuf (length v) g). rewrite Er. now left.
    + rewrite (IH Hv). reflexivity.
Qed.

Lemma replace_trailing (c0 : ascii) (g v : str) :
  ~ In c0 g ->
  contains (c0 :: g) v = false ->
  replace (c0 :: g) [] (v ++ c0 :: g) = v.
Proof.
  intros Hc0 Hv.
  rewrite (replace_first (c0 :: g) [] _ (length v));
    [|discriminate|now apply first_index_tail].
  rewrite firstn_app, firstn_all, Nat.sub_diag. cbn [firstn app].
  rewrite app_nil_r.
  rewrite skipn_all2; [now rewrite app_nil_r|].
  rewrite length_app. lia.
Qed.

(** ** Facts about the range pattern *)

Lemma span_digits_spec (s d r : str) :
  span_digits s = (d, r) ->
  s = d ++ r /\ all_digits d = true /\
  match r with [] => True | c :: _ => is_digit c = false end.
Proof.
  revert d r; induction s as [|c s IH]; intros d r; cbn [span_digits].
  - intros [= <- <-]. now repeat split.
  - destruct (is_digit c) eqn:Ec.
    + destruct (span_digits s) as [d' r'] eqn:E. intros [= <- <-].
      destruct (IH _ _ eq_refl) as (-> & Hd & Hr).
      repeat split; [|exact Hr]. simpl. now rewrite Ec, Hd.
    + intros [= <- <-]. now repeat split.
Qed.

Lemma span_digits_app (d r : str) :
  all_digits d = true ->
  match r with [] => True | c :: _ => is_digit c = false end ->
  span_digits (d ++ r) = (d, r).
Proof.
  intros Hd Hr. induction d as [|c d IH]; cbn [app span_digits].
  - destruct r as [|c r]; [reflexivity|]. cbn [span_digits]. now rewrite Hr.
  - simpl in Hd. apply andb_true_iff in Hd as [Hc Hd].
    now rewrite Hc, (IH Hd).
Qed.

Lemma strip_prefix_iff (p s r : str) :
  strip_prefix p s = Some r <-> s = p ++ r.
Proof.
  revert s; induction p as [|a p IH]; intros s; cbn [strip_prefix app].
  - split; [now intros [= ->]|now intros ->].
  - destruct s as [|b s]; [split; discriminate|].
    destruct (Ascii.eqb a b) eqn:E.
    + apply Ascii.eqb_eq in E. subst b. rewrite IH.
      split; [now intros ->|now intros [= ->]].
    + split; [discriminate|]. intros [= <- _].
      now rewrite Ascii.eqb_refl in E.
Qed.

Lemma match_range_here_sound (s g : str) :
  match_range_here s = Some g ->
  range_shape g /\
  exists tail, s = "."%char :: g ++ L ".diff" ++ tail /\ at_dollar tail = true.
Proof.
  unfold match_range_here.
  destruct s as [|c s1]; [discriminate|].
  destruct (Ascii.eqb c ".") eqn:Ec; [|discriminate].
  apply Ascii.eqb_eq in Ec. subst c.
  destruct (span_digits s1) as [d1 s2] eqn:E1.
  destruct d1 as [|x d1]; [discriminate|].
  destruct s2 as [|c2 s3]; [discriminate|].
  destruct (Ascii.eqb c2 "-") eqn:Ec2; [|discriminate].
  apply Ascii.eqb_eq in Ec2. subst c2.
  destruct (span_digits s3) as [d2 s4] eqn:E2.
  destruct d2 as [|y d2]; [discriminate|].
  destruct (strip_prefix (L ".diff") s4) as [s5|] eqn:E3; [|discriminate].
  destruct (at_dollar s5) eqn:E4; [|discriminate].
  intros [= <-].
  apply span_digits_spec in E1 as (-> & Hd1 & _).
  apply span_digits_spec in E2 as (-> & Hd2 & _).
  apply strip_prefix_iff in E3 as ->.
  split.
  - exists (x :: d1), (y :: d2). repeat split; try discriminate; assumption.
  - exists s5. split; [|exact E4].
    cbn [app]. do 2 f_equal. rewrite <- app_assoc. reflexivity.
Qed.

Lemma search_range_sound (s g : str) :
  search_range s = Some g ->
  range_shape g /\
  exists pre tail,
    s = pre ++ "."%char :: g ++ L ".diff" ++ tail /\ at_dollar tail = true.
Proof.
  induction s as [|c s IH]; cbn [search_range].
  - destruct (match_range_here []) eqn:E; [|discriminate].
    intros [= ->]. destruct (match_range_here_sound _ _ E) as (Hg & tail & Hs & Ht).
    split; [exact Hg|]. now exists [], tail.
  - destruct (match_range_here (c :: s)) eqn:E.
    + intros [= ->].
      destruct (match_range_here_sound _ _ E) as (Hg & tail & Hs & Ht).
      split; [exact Hg|]. now exists [], tail.
    + intros H. destruct (IH H) as (Hg & pre & tail & -> & Ht).
      split; [exact Hg|]. now exists (c :: pre), tail.
Qed.

(** ** Splitting a range and reading its numbers *)

Lemma split_without_sep (sep : ascii) (s : str) :
  forallb (fun c => negb (Ascii.eqb c sep)) s = true -> split sep s = [s].
Proof.
  induction s as [|c s IH]; [reflexivity|].
  simpl. intros H. apply andb_true_iff in H as [Hc Hs].
  apply negb_true_iff in Hc. now rewrite Hc, (IH Hs).
Qed.

Lemma split_at_sep (sep : ascii) (a b : str) :
  forallb (fun c => negb (Ascii.eqb c sep)) a = true ->
  split sep (a ++ sep :: b) = a :: split sep b.
Proof.
  induction a as [|c a IH]; intros H.
  - simpl. now rewrite Ascii.eqb_refl.
  - simpl in H. apply andb_true_iff in H as [Hc Ha].
    apply negb_true_iff in Hc. cbn [app split]. now rewrite Hc, (IH Ha).
Qed.

Lemma digits_have_no_dash (d : str) :
  all_digits d = true ->
  forallb (fun c => negb (Ascii.eqb c "-")) d = true.
Proof.
  induction d as [|c d IH]; [reflexivity|].
  simpl. intros H. apply andb_true_iff in H as [Hc Hd].
  rewrite (IH Hd), andb_true_r. apply negb_true_iff.
  destruct (Ascii.eqb c "-") eqn:E; [|reflexivity].
  apply Ascii.eqb_eq in E. subst c. discriminate.
Qed.

Lemma split_range (d1 d2 : str) :
  all_digits d1 = true -> all_digits d2 = true ->
  split "-" (d1 ++ "-"%char :: d2) = [d1; d2].
Proof.
  intros H1 H2.
  rewrite split_at_sep by now apply digits_have_no_dash.
  now rewrite split_without_sep by now apply digits_have_no_dash.
Qed.

Lemma py_int_digits (d : str) :
  d <> [] -> all_digits d = true -> py_int d = Return (digits_value d).
Proof.
  intros Hne Hd. destruct d as [|c d]; [contradiction|].
  unfold py_int. unfold all_digits in Hd. now rewrite Hd.
Qed.

Lemma digit_value_bounds (c : ascii) :
  is_digit c = true -> (0 <= digit_value c <= 9)%Z.
Proof.
  unfold is_digit, digit_value. intros H.
  apply andb_true_iff in H as [H1 H2].
  apply Nat.leb_le in H1, H2. lia.
Qed.

Lemma digits_value_from_nonneg (d : str) (acc : Z) :
  all_digits d = true -> (0 <= acc)%Z -> (0 <= digits_value_from acc d)%Z.
Proof.
  revert acc; induction d as [|c d IH]; intros acc Hd Hacc; [exact Hacc|].
  simpl in Hd. apply andb_true_iff in Hd as [Hc Hd].
  cbn [digits_value_from]. apply IH; [exact Hd|].
  pose proof (digit_value_bounds _ Hc). lia.
Qed.

Lemma digits_value_nonneg (d : str) :
  all_digits d = true -> (0 <= digits_value d)%Z.
Proof.
  intros H. apply digits_value_from_nonneg; [exact H|lia].
Qed.

Lemma range_numbers (d1 d2 : str) :
  d1 <> [] -> all_digits d1 = true -> all_digits d2 = true ->
  start_of_range (d1 ++ "-"%char :: d2) = digits_value d1 /\
  end_of_range (d1 ++ "-"%char :: d2) = digits_value d2.
Proof.
  intros Hne H1 H2. unfold start_of_range, end_of_range.
  rewrite (span_digits_app d1 ("-"%char :: d2) H1 eq_refl). now split.
Qed.

(** ** Both parsers in closed form

    Once the content has been read, neither parser can raise: the text
    handed to [split] and [int] is group 1 of a match, which has exactly
    one dash between two runs of digits. *)

Lemma read_content_stored (fs : FileSystem) (p c : str) :
  stored_content (read_text fs p) = Some c <-> read_content fs p = Return c.
Proof.
  unfold read_content, stored_content.
  destruct (read_text fs p); split; intros H; inversion H; reflexivity.
Qed.

Lemma parse_diff_file_path_eq (fs : FileSystem) (p : str) :
  parse_diff_file_path fs p =
  (c <- read_content fs p ;; Return (record_of p c)).
Proof.
  unfold parse_diff_file_path, record_of, name_of_path, range_of_path.
  destruct (read_content fs p) as [c|e]; [|reflexivity]. cbn [bind].
  destruct (search_range (basename p)) as [g|] eqn:E; [|reflexivity].
  destruct (search_range_sound _ _ E) as ((d1 & d2 & -> & N1 & N2 & D1 & D2) & _).
  rewrite (split_range _ _ D1 D2). cbn [unpack2 bind].
  rewrite (py_int_digits _ N1 D1), (py_int_digits _ N2 D2). cbn [bind option_map].
  destruct (range_numbers d1 d2 N1 D1 D2) as [-> ->]. reflexivity.
Qed.

Lemma parse_diff_file_eq (fs : FileSystem) (p : str) :
  parse_diff_file fs p =
  if path_exists fs p
  then c <- read_content fs p ;; Return (Some (record_of p c))
  else Return None.
Proof.
  unfold parse_diff_file, record_of, name_of_path, range_of_path.
  destruct (path_exists fs p); [|reflexivity]. cbn [negb].
  destruct (read_content fs p) as [c|e]; [|reflexivity]. cbn [bind].
  destruct (search_range (basename p)) as [g|] eqn:E; [|reflexivity].
  destruct (search_range_sound _ _ E) as ((d1 & d2 & -> & N1 & N2 & D1 & D2) & _).
  rewrite (split_range _ _ D1 D2). cbn [unpack2_ints bind].
  rewrite (py_int_digits _ N1 D1), (py_int_digits _ N2 D2). cbn [bind option_map].
  destruct (range_numbers d1 d2 N1 D1 D2) as [-> ->]. reflexivity.
Qed.

Lemma record_of_range (p c : str) :
  match range (record_of p c) with
  | None => start_line (record_of p c) = None /\ end_line (record_of p c) = None
  | Some g =>
      exists a b,
        g = a ++ "-"%char :: b /\ a <> [] /\ b <> [] /\
        all_digits a = true /\ all_digits b = true /\
        start_line (record_of p c) = Some (digits_value a) /\
        end_line (record_of p c) = Some (digits_value b)
  end.
Proof.
  unfold record_of, range_of_path. cbn [range start_line end_line].
  destruct (search_range (basename p)) as [g|] eqn:E; [|now split].
  destruct (search_range_sound _ _ E) as ((a & b & -> & Na & Nb & Da & Db) & _).
  exists a, b. cbn [option_map].
  destruct (range_numbers a b Na Da Db) as [-> ->]. now repeat split.
Qed.

(** Whatever either parser returns is [record_of] of the path and of
    the content it stored. *)
Lemma returned_record (fs : FileSystem) (p : str) (d : DiffInfo) :
  parse_diff_file_path fs p = Return d \/
  parse_diff_file fs p = Return (Some d) ->
  d = record_of p (content d).
Proof.
  rewrite parse_diff_file_path_eq, parse_diff_file_eq.
  destruct (path_exists fs p), (read_content fs p) as [c|e]; cbn [bind];
    intros [H|H]; inversion H; reflexivity.
Qed.

(** ** Lines of a text *)

Lemma split_not_nil (sep : ascii) (s : str) : split sep s <> [].
Proof.
  destruct s as [|c s]; [discriminate|]. cbn [split].
  destruct (Ascii.eqb c sep); [discriminate|].
  destruct (split sep s); discriminate.
Qed.

Lemma join_cons (sep x : str) (l : list str) :
  l <> [] -> join sep (x :: l) = x ++ sep ++ join sep l.
Proof. destruct l; [contradiction|reflexivity]. Qed.

Lemma join_split (sep : ascii) (s : str) : join [sep] (split sep s) = s.
Proof.
  induction s as [|c s IH]; [reflexivity|]. cbn [split].
  destruct (Ascii.eqb c sep) eqn:E.
  - apply Ascii.eqb_eq in E. subst c.
    rewrite join_cons by apply split_not_nil. now rewrite IH.
  - pose proof (split_not_nil sep s) as N.
    destruct (split sep s) as [|t ts]; [contradiction|].
    destruct ts as [|t' ts].
    + cbn [join] in *. now rewrite IH.
    + rewrite join_cons in IH by discriminate.
      rewrite join_cons by discriminate.
      rewrite <- IH. reflexivity.
Qed.

Lemma join_firstn_prefix (sep : str) (n : nat) (l : list str) :
  exists rest, join sep l = join sep (firstn n l) ++ rest.
Proof.
  revert n; induction l as [|x l IH]; intros n.
  - exists []. now rewrite firstn_nil.
  - destruct n as [|n]; [now exists (join sep (x :: l))|].
    cbn [firstn]. destruct l as [|y l].
    + exists []. rewrite firstn_nil. cbn [join]. now rewrite app_nil_r.
    + destruct n as [|n].
      * exists (sep ++ join sep (y :: l)). reflexivity.
      * destruct (IH (S n)) as [rest Hr]. cbn [firstn] in Hr |- *.
        exists rest.
        rewrite (join_cons sep x (y :: l)) by discriminate.
        rewrite (join_cons sep x (y :: firstn n l)) by discriminate.
        rewrite Hr. now rewrite <- !app_assoc.
Qed.

Lemma truthy_iff (s : str) : truthy s = true <-> s <> [].
Proof. destruct s; split; (discriminate || congruence || reflexivity). Qed.

(** ** The batch loops *)

Lemma parse_loop_spec (fs : FileSystem) (paths : list str) :
  (forall t, In t paths -> truthy t = true -> path_exists fs t = true ->
             stored_content (read_text fs t) <> None) ->
  forall acc, exists rs,
    parse_loop fs paths acc = Return (acc ++ rs) /\
    Forall2 (fun t d => parse_diff_file fs t = Return (Some d))
            (filter (path_exists fs) (filter truthy paths)) rs.
Proof.
  induction paths as [|p rest IH]; intros Hok acc.
  - exists []. cbn. rewrite app_nil_r. split; [reflexivity|constructor].
  - assert (Hrest : forall t, In t rest -> truthy t = true ->
              path_exists fs t = true -> stored_content (read_text fs t) <> None)
      by (intros t Ht; apply Hok; now right).
    cbn [parse_loop filter]. destruct (truthy p) eqn:Tp; cbn [negb filter].
    + destruct (path_exists fs p) eqn:Ep.
      * destruct (stored_content (read_text fs p)) as [c|] eqn:Sc;
          [|exfalso; now apply (Hok p (or_introl eq_refl) Tp Ep)].
        assert (Hp : parse_diff_file fs p = Return (Some (record_of p c))).
        { rewrite parse_diff_file_eq, Ep.
          apply read_content_stored in Sc. now rewrite Sc. }
        rewrite Hp. cbn [bind].
        destruct (IH Hrest (acc ++ [record_of p c])) as (rs & Hl & Hf).
        exists (record_of p c :: rs). split.
        -- rewrite Hl, <- app_assoc. reflexivity.
        -- constructor; assumption.
      * rewrite parse_diff_file_eq, Ep. cbn [bind]. apply (IH Hrest).
    + apply (IH Hrest).
Qed.

Lemma tool_loop_spec (fs : FileSystem) (paths : list str) :
  (forall t, In t paths -> truthy t = true ->
             stored_content (read_text fs t) <> None) ->
  exists ds,
    tool_loop fs paths = Return ds /\
    Forall2 (fun t d => parse_diff_file_path fs t = Return d)
            (filter truthy paths) ds.
Proof.
  induction paths as [|p rest IH]; intros Hok.
  - exists []. split; [reflexivity|constructor].
  - destruct IH as (ds & Hl & Hf); [intros t Ht; apply Hok; now right|].
    cbn [tool_loop filter]. destruct (truthy p) eqn:Tp; cbn [negb].
    + destruct (stored_content (read_text fs p)) as [c|] eqn:Sc;
        [|exfalso; now apply (Hok p (or_introl eq_refl) Tp)].
      assert (Hp : parse_diff_file_path fs p = Return (record_of p c)).
      { rewrite parse_diff_file_path_eq.
        apply read_content_stored in Sc. now rewrite Sc. }
      rewrite Hp, Hl. cbn [bind]. exists (record_of p c :: ds).
      split; [reflexivity|]. constructor; assumption.
    + exists ds. split; assumption.
Qed.

Lemma in_tokens (csv t : str) :
  In t (tokens csv) <->
  In t (map strip (split "," csv)) /\ truthy t = true.
Proof. unfold tokens. now rewrite filter_In. Qed.

(** ** Names whose only [.diff] is the trailing one *)

Lemma spec_working_name_cases (name : str) :
  (exists w, name = w ++ L ".diff" /\ spec_working_name name = w) \/
  ((forall w, name <> w ++ L ".diff") /\ spec_working_name name = name).
Proof.
  unfold spec_working_name.
  destruct (strip_prefix (rev (L ".diff")) (rev name)) as [r|] eqn:E.
  - left. exists (rev r). split; [|reflexivity].
    apply strip_prefix_iff in E. apply (f_equal (@rev ascii)) in E.
    now rewrite rev_involutive, rev_app_distr, rev_involutive in E.
  - right. split; [|reflexivity]. intros w ->.
    assert (E' : strip_prefix (rev (L ".diff")) (rev (w ++ L ".diff")) = Some (rev w))
      by (apply strip_prefix_iff; apply rev_app_distr).
    congruence.
Qed.

Lemma dot_is_no_digit_or_dash (g : str) : range_shape g -> ~ In "."%char g.
Proof.
  intros (a & b & -> & _ & _ & Da & Db) H.
  assert (N : forall d, all_digits d = true -> ~ In "."%char d).
  { intros d Hd Hin. unfold all_digits in Hd.
    rewrite forallb_forall in Hd. now specialize (Hd _ Hin). }
  apply in_app_or in H as [H|[H|H]];
    [now apply (N a)|discriminate|now apply (N b)].
Qed.

Lemma dollar_after_f (x y tail : str) :
  x ++ L ".diff" = y ++ L ".diff" ++ tail -> at_dollar tail = true ->
  tail = [] /\ x = y.
Proof.
  intros E Ht. destruct tail as [|c [|c' tail]]; [| |discriminate].
  - split; [reflexivity|]. rewrite app_nil_r in E. now apply app_inv_tail in E.
  - exfalso. cbn [at_dollar] in Ht. apply Ascii.eqb_eq in Ht. subst c.
    change (x ++ L ".diff") with (x ++ L ".dif" ++ ["f"%char]) in E.
    rewrite !app_assoc in E. apply app_inj_tail in E as [_ E]. discriminate.
Qed.

(** ** Every name of the form [*.<a>-<b>.diff] matches, with group [a-b] *)

Lemma digits_exclude (sep : ascii) (y b : str) :
  is_digit sep = false -> all_digits (y ++ sep :: b) = false.
Proof.
  intros Hs. unfold all_digits. rewrite forallb_app. cbn [forallb].
  rewrite Hs. cbn. apply andb_false_r.
Qed.

Lemma sep_suffix_unique (sep : ascii) (x y b b' : str) :
  is_digit sep = false -> all_digits b = true -> all_digits b' = true ->
  x ++ sep :: b = y ++ sep :: b' -> x = y /\ b = b'.
Proof.
  intros Hs Hb Hb'. revert y; induction x as [|c x IH]; intros [|c' y] E.
  - now injection E.
  - injection E as _ E. subst b.
    now rewrite (digits_exclude sep y b' Hs) in Hb.
  - injection E as _ E. subst b'.
    now rewrite (digits_exclude sep x b Hs) in Hb'.
  - injection E as <- E. destruct (IH _ E) as [-> ->]. now split.
Qed.

Lemma match_range_here_complete (a b : str) :
  a <> [] -> b <> [] -> all_digits a = true -> all_digits b = true ->
  match_range_here ("."%char :: a ++ "-"%char :: b ++ L ".diff")
  = Some (a ++ "-"%char :: b).
Proof.
  intros Na Nb Da Db. unfold match_range_here.
  rewrite Ascii.eqb_refl.
  rewrite (span_digits_app a ("-"%char :: b ++ L ".diff") Da eq_refl).
  destruct a as [|x a]; [contradiction|].
  rewrite Ascii.eqb_refl.
  rewrite (span_digits_app b (L ".diff") Db eq_refl).
  destruct b as [|y b]; [contradiction|]. reflexivity.
Qed.

Lemma match_range_here_unique (pre a b g : str) :
  all_digits a = true -> all_digits b = true ->
  match_range_here (pre ++ "."%char :: a ++ "-"%char :: b ++ L ".diff") = Some g ->
  g = a ++ "-"%char :: b.
Proof.
  intros Da Db H.
  destruct (match_range_here_sound _ _ H)
    as ((a' & b' & -> & _ & _ & Da' & Db') & tail & E & Ht).
  assert (E' : (pre ++ "."%char :: a ++ "-"%char :: b) ++ L ".diff" =
               ("."%char :: a' ++ "-"%char :: b') ++ L ".diff" ++ tail).
  { rewrite <- app_assoc. cbn [app]. rewrite <- app_assoc. exact E. }
  apply dollar_after_f in E' as [_ E']; [|exact Ht].
  change (pre ++ "."%char :: a ++ "-"%char :: b)
    with (pre ++ ["."%char] ++ a ++ "-"%char :: b) in E'.
  change ("."%char :: a' ++ "-"%char :: b')
    with (["."%char] ++ a' ++ "-"%char :: b') in E'.
  rewrite !app_assoc in E'.
  apply sep_suffix_unique in E' as [E' ->]; [|reflexivity|exact Db|exact Db'].
  rewrite <- app_assoc in E'.
  change (["."%char] ++ a') with ([] ++ "."%char :: a') in E'.
  cbn [app] in E'.
  change ("."%char :: a') with ([] ++ "."%char :: a') in E'.
  apply sep_suffix_unique in E' as [_ ->]; [|reflexivity|exact Da|exact Da'].
  reflexivity.
Qed.

Lemma search_range_complete (pre a b : str) :
  a <> [] -> b <> [] -> all_digits a = true -> all_digits b = true ->
  search_range (pre ++ "."%char :: a ++ "-"%char :: b ++ L ".diff")
  = Some (a ++ "-"%char :: b).
Proof.
  intros Na Nb Da Db. induction pre as [|c pre IH].
  - cbn [app search_range].
    now rewrite (match_range_here_complete a b Na Nb Da Db).
  - change ((c :: pre) ++ "."%char :: a ++ "-"%char :: b ++ L ".diff")
      with (c :: (pre ++ "."%char :: a ++ "-"%char :: b ++ L ".diff")).
    cbn [search_range].
    destruct (match_range_here
                (c :: pre ++ "."%char :: a ++ "-"%char :: b ++ L ".diff"))
      as [g|] eqn:E; [|exact IH].
    f_equal. apply (match_range_here_unique (c :: pre) a b g Da Db E).
Qed.

(** The range half of C3, for every name: a final segment
    [<pre>.<a>-<b>.diff] gives the range text [<a>-<b>] and the line
    numbers the values of [a] and [b], in either parser. *)
Lemma matching_name_gives_range
  (fs : FileSystem) (p pre a b : str) (d : DiffInfo) :
  basename p = pre ++ "."%char :: a ++ "-"%char :: b ++ L ".diff" ->
  a <> [] -> b <> [] -> all_digits a = true -> all_digits b = true ->
  parse_diff_file_path fs p = Return d \/
  parse_diff_file fs p = Return (Some d) ->
  range d = Some (a ++ "-"%char :: b) /\
  start_line d = Some (digits_value a) /\
  end_line d = Some (digits_value b).
Proof.
  intros Hn Na Nb Da Db Hd. rewrite (returned_record _ _ _ Hd).
  unfold record_of, range_of_path. cbn [range start_line end_line].
  rewrite Hn, (search_range_complete pre a b Na Nb Da Db). cbn [option_map].
  destruct (range_numbers a b Na Da Db) as [-> ->]. now repeat split.
Qed.

(** A record has a range only if the final segment of its path ends in
    [.<range>.diff] (with at most a newline after it). *)
Lemma range_needs_matching_name
  (fs : FileSystem) (p g : str) (d : DiffInfo) :
  parse_diff_file_path fs p = Return d \/
  parse_diff_file fs p = Return (Some d) ->
  range d = Some g ->
  exists pre tail,
    basename p = pre ++ "."%char :: g ++ L ".diff" ++ tail /\
    at_dollar tail = true.
Proof.
  intros Hd. rewrite (returned_record _ _ _ Hd).
  unfold record_of, range_of_path. cbn [range]. intros Hs.
  now destruct (search_range_sound _ _ Hs) as (_ & pre & tail & E & Ht);
    exists pre, tail.
Qed.

(** What a returned record's range can be: nothing, or the text of two
    digit runs found at the end of the final path segment, with the
    line numbers their decimal values. *)
Lemma returned_range (fs : FileSystem) (p : str) (d : DiffInfo) :
  parse_diff_file_path fs p = Return d \/
  parse_diff_file fs p = Return (Some d) ->
  (range d = None /\ start_line d = None /\ end_line d = None) \/
  (exists a b pre tail,
     a <> [] /\ b <> [] /\ all_digits a = true /\ all_digits b = true /\
     basename p = pre ++ "."%char :: (a ++ "-"%char :: b) ++ L ".diff" ++ tail /\
     at_dollar tail = true /\
     range d = Some (a ++ "-"%char :: b) /\
     start_line d = Some (digits_value a) /\
     end_line d = Some (digits_value b)).
Proof.
  intros H. pose proof (returned_record _ _ _ H) as Hd.
  pose proof (record_of_range p (content d)) as R. rewrite <- Hd in R.
  destruct (range d) as [g|] eqn:Hr.
  - right. destruct R as (a & b & -> & Na & Nb & Da & Db & Hs & He).
    destruct (range_needs_matching_name fs p _ d H Hr) as (pre & tail & E & Ht).
    exists a, b, pre, tail. now repeat split.
  - left. now destruct R.
Qed.

Lemma parsed_has_range (fs : FileSystem) (p : str) (d : DiffInfo) :
  parse_diff_file_path fs p = Return d \/
  parse_diff_file fs p = Return (Some d) ->
  match range d with
  | None => has_range d = false
  | Some _ => has_range d = true /\ exists n, start_line d = Some n
  end.
Proof.
  intros H. destruct (returned_range fs p d H)
    as [(Hr & _)|(a & b & _ & _ & Na & _ & _ & _ & _ & _ & Hr & Hs & _)];
    unfold has_range; rewrite Hr.
  - reflexivity.
  - split; [|now exists (digits_value a)].
    destruct a; [contradiction|reflexivity].
Qed.

(** ** The specification's worked examples *)

Example format_with_line :
  format_comment (L "msg") (L "foo.py") (Some 5%Z) =
  L "msg" ++ [NL] ++ L "File: `foo.py`" ++ [NL] ++ L "Line: 5".
Proof. reflexivity. Qed.

Example format_bare : format_comment (L "msg") [] None = L "msg".
Proof. reflexivity. Qed.

Example parse_range_name :
  parse_diff_file_path (fs_present (L "x")) (L "path/to/foo.py.42-100.diff") =
  Return {| filename := L "foo.py"; range := Some (L "42-100");
            start_line := Some 42%Z; end_line := Some 100%Z;
            full_path := L "path/to/foo.py.42-100.diff"; content := L "x" |}.
Proof. reflexivity. Qed.

Example batch_of_blanks : parse_diff_files (fs_present []) (L " , ,,  ") = Return [].
Proof. reflexivity. Qed.

(** ** The claims *)

(** C1 (counterexample).  A path that does not exist is not turned into
    a record by the parser of the posting tool: [parse_diff_file]
    returns nothing for it and [parse_diff_files] leaves it out, so no
    comment is formatted or posted for it. *)
Lemma C1_absent_path_gives_no_record :
  parse_diff_file fs_absent (L "missing.1-5.diff") = Return None /\
  parse_diff_files fs_absent (L "missing.1-5.diff") = Return [] /\
  main env_sample fs_absent net_accepting
    {| arg_pr := 7; arg_diff_files := L "missing.1-5.diff";
       arg_comment := None; arg_test := false |}
  = {| calls := []; ended := Exit 1 |}.
Proof. repeat split; vm_compute; reflexivity. Qed.

(** C2 (the code at the failing input).  The artifact of a file that is
    itself called [notes.diff] has no range in its name; the working
    name the specification describes is [notes.diff], the record's
    filename is [notes].  Likewise [archive.diff.tar], which should be
    left alone, becomes [archive.tar]. *)
Theorem C2_inner_diff_is_removed :
  (exists d,
     parse_diff_file_path (fs_present []) (L "patches/notes.diff.diff") = Return d /\
     range d = None /\
     filename d = L "notes" /\
     spec_working_name (basename (L "patches/notes.diff.diff")) = L "notes.diff") /\
  (exists d,
     parse_diff_file (fs_present []) (L "archive.diff.tar") = Return (Some d) /\
     range d = None /\
     filename d = L "archive.tar" /\
     spec_working_name (basename (L "archive.diff.tar")) = L "archive.diff.tar").
Proof.
  split; eexists; (split; [vm_compute; reflexivity|]);
    repeat split; vm_compute; reflexivity.
Qed.

(** C3 (the code at the failing input).  In [v.1-2.notes.1-2.diff] the
    range is read correctly as (1, 2), but the record's filename is
    [v.notes]: the earlier [.1-2] is removed too, where the
    specification keeps it and gives [v.1-2.notes].  In
    [changes.diff.1-42.diff] the inner [.diff] is lost as well. *)
Theorem C3_earlier_segments_are_removed :
  (exists d,
     parse_diff_file_path (fs_present []) (L "v.1-2.notes.1-2.diff") = Return d /\
     start_line d = Some 1%Z /\ end_line d = Some 2%Z /\
     filename d = L "v.notes" /\
     spec_logical_filename (L "1-2") (L "v.1-2.notes.1-2.diff") = L "v.1-2.notes") /\
  (exists d,
     parse_diff_file (fs_present []) (L "changes.diff.1-42.diff") = Return (Some d) /\
     start_line d = Some 1%Z /\ end_line d = Some 42%Z /\
     filename d = L "changes" /\
     spec_logical_filename (L "1-42") (L "changes.diff.1-42.diff") = L "changes.diff").
Proof.
  split; eexists; (split; [vm_compute; reflexivity|]);
    repeat split; vm_compute; reflexivity.
Qed.

(** C4 (counterexample).  The three non-empty tokens of the example
    yield no record at all when none of the three files exists. *)
Lemma C4_absent_paths_are_skipped :
  tokens (L "a.diff, b.1-5.diff , ,c.9-10.diff") =
    [L "a.diff"; L "b.1-5.diff"; L "c.9-10.diff"] /\
  parse_diff_files fs_absent (L "a.diff, b.1-5.diff , ,c.9-10.diff") = Return [].
Proof. split; vm_compute; reflexivity. Qed.

(** C5 (counterexample).  Nothing orders or bounds the two numbers:
    [x.9-3.diff] gives the range (9, 3) and [x.0-0.diff] gives (0, 0). *)
Lemma C5_range_neither_ordered_nor_positive :
  (exists d, parse_diff_file_path fs_absent (L "x.9-3.diff") = Return d /\
             start_line d = Some 9%Z /\ end_line d = Some 3%Z /\
             ~ (9 <= 3)%Z) /\
  (exists d, parse_diff_file (fs_present []) (L "x.0-0.diff") = Return (Some d) /\
             start_line d = Some 0%Z /\ end_line d = Some 0%Z /\
             ~ (0 < 0)%Z).
Proof.
  split; eexists; (split; [vm_compute; reflexivity|]);
    cbn [start_line end_line]; repeat split; lia.
Qed.

(** C5 (amended).  In every record either parser returns, the range is
    absent together with both line numbers, or the final path segment
    ends in [.<a>-<b>.diff] for two non-empty runs of decimal digits,
    the range is the text [<a>-<b>] and the line numbers are the values
    of [a] and [b], both non-negative.  No order between them and no
    positivity is enforced. *)
Theorem C5_range_is_two_decimal_values
  (fs : FileSystem) (p : str) (d : DiffInfo) :
  parse_diff_file_path fs p = Return d \/
  parse_diff_file fs p = Return (Some d) ->
  (range d = None /\ start_line d = None /\ end_line d = None) \/
  (exists a b pre tail,
     a <> [] /\ b <> [] /\ all_digits a = true /\ all_digits b = true /\
     basename p = pre ++ "."%char :: (a ++ "-"%char :: b) ++ L ".diff" ++ tail /\
     at_dollar tail = true /\
     range d = Some (a ++ "-"%char :: b) /\
     start_line d = Some (digits_value a) /\
     end_line d = Some (digits_value b) /\
     (0 <= digits_value a)%Z /\ (0 <= digits_value b)%Z).
Proof.
  intros H. destruct (returned_range fs p d H)
    as [N|(a & b & pre & tail & Na & Nb & Da & Db & E & Ht & Hr & Hs & He)].
  - now left.
  - right. exists a, b, pre, tail.
    repeat split; try assumption; now apply digits_value_nonneg.
Qed.

Lemma C5_range_is_two_decimal_values_witness :
  exists d,
    parse_diff_file_path fs_absent (L "lib/m.py.007-3.diff") = Return d /\
    start_line d = Some 7%Z /\ end_line d = Some 3%Z /\
    exists a b,
      range d = Some (a ++ "-"%char :: b) /\
      start_line d = Some (digits_value a) /\
      end_line d = Some (digits_value b) /\
      (0 <= digits_value a)%Z /\ (0 <= digits_value b)%Z.
Proof.
  exists (record_of (L "lib/m.py.007-3.diff")
            (L "Error reading file: [Errno 2] No such file or directory: 'lib/m.py.007-3.diff'")).
  split; [vm_compute; reflexivity|].
  split; [vm_compute; reflexivity|].
  split; [vm_compute; reflexivity|].
  destruct (C5_range_is_two_decimal_values fs_absent (L "lib/m.py.007-3.diff") _
              (or_introl eq_refl))
    as [(N & _)|(a & b & _ & _ & _ & _ & _ & _ & _ & _ & Hr & Hs & He & Pa & Pb)].
  - vm_compute in N. discriminate N.
  - exists a, b. repeat split; assumption.
Defined.

(** C8.  The filename, range, start line and end line of a returned
    record are functions of the path text alone: two runs on the same
    path, over file systems that may hold different contents, agree on
    them, whichever of the two parsers each run uses. *)
Theorem C8_path_fields_ignore_content
  (fs1 fs2 : FileSystem) (p : str) (d1 d2 : DiffInfo) :
  parse_diff_file_path fs1 p = Return d1 \/
  parse_diff_file fs1 p = Return (Some d1) ->
  parse_diff_file_path fs2 p = Return d2 \/
  parse_diff_file fs2 p = Return (Some d2) ->
  same_path_fields d1 d2 /\
  filename d1 = name_of_path p /\ range d1 = range_of_path p.
Proof.
  intros H1 H2.
  rewrite (returned_record _ _ _ H1), (returned_record _ _ _ H2).
  unfold same_path_fields. now repeat split.
Qed.

Lemma C8_path_fields_ignore_content_witness :
  exists d1 d2,
    parse_diff_file (fs_present (L "first text")) (L "x/y.py.10-20.diff")
      = Return (Some d1) /\
    parse_diff_file (fs_present (L "+++ other text")) (L "x/y.py.10-20.diff")
      = Return (Some d2) /\
    content d1 <> content d2 /\
    same_path_fields d1 d2.
Proof.
  eexists. eexists. split; [vm_compute; reflexivity|].
  split; [vm_compute; reflexivity|].
  split; [discriminate|].
  apply (C8_path_fields_ignore_content
           (fs_present (L "first text")) (fs_present (L "+++ other text"))
           (L "x/y.py.10-20.diff")); right; vm_compute; reflexivity.
Defined.

(** C9.  For a path that exists and whose read has the same outcome in
    both runs, [parse_diff_file] and [parse_diff_file_path] do the same
    thing: they return the same record (all six fields), or raise the
    same exception when the read fails in a way neither catches. *)
Theorem C9_parsers_agree (fs1 fs2 : FileSystem) (p : str) :
  path_exists fs1 p = true ->
  read_text fs1 p = read_text fs2 p ->
  parse_diff_file fs1 p = (d <- parse_diff_file_path fs2 p ;; Return (Some d)) /\
  (forall c, stored_content (read_text fs1 p) = Some c ->
     exists d, parse_diff_file fs1 p = Return (Some d) /\
               parse_diff_file_path fs2 p = Return d /\
               content d = c /\ full_path d = p).
Proof.
  intros He Hr.
  assert (Hrc : read_content fs1 p = read_content fs2 p).
  { unfold read_content. now rewrite Hr. }
  rewrite parse_diff_file_eq, parse_diff_file_path_eq, He, Hrc. split.
  - now destruct (read_content fs2 p).
  - intros c Hc. apply read_content_stored in Hc.
    rewrite <- Hrc, Hc. exists (record_of p c). now repeat split.
Qed.

Lemma C9_parsers_agree_witness :
  path_exists (fs_present (L "+++ b/f")) (L "d/f.c.1-292.diff") = true /\
  parse_diff_file (fs_present (L "+++ b/f")) (L "d/f.c.1-292.diff") =
  (d <- parse_diff_file_path (fs_present (L "+++ b/f")) (L "d/f.c.1-292.diff") ;;
   Return (Some d)).
Proof.
  split; [reflexivity|].
  exact (proj1 (C9_parsers_agree (fs_present (L "+++ b/f"))
                  (fs_present (L "+++ b/f")) (L "d/f.c.1-292.diff")
                  eq_refl eq_refl)).
Defined.

(** C10 (counterexample).  Removing the occurrences of [.diff] can
    bring the pieces around them together into a new one: the basename
    [.d.diffiff] gives the filename [.diff]. *)
Lemma C10_filename_can_contain_diff :
  exists d,
    parse_diff_file_path (fs_present []) (L "out/.d.diffiff") = Return d /\
    filename d = L ".diff" /\
    contains (L ".diff") (filename d) = true.
Proof. eexists. repeat split; vm_compute; reflexivity. Qed.

(** C10 (amended).  When [.diff] occurs in the basename nowhere but,
    possibly, as its final suffix, and the text [.<range>] of a matched
    range occurs nowhere before its final place, the record's filename
    contains no [.diff]: it is the basename without the trailing
    [.diff] and without the trailing [.<range>]. *)
Theorem C10_trailing_suffix_is_removed
  (fs : FileSystem) (p : str) (d : DiffInfo) :
  parse_diff_file_path fs p = Return d \/
  parse_diff_file fs p = Return (Some d) ->
  contains (L ".diff") (spec_working_name (basename p)) = false ->
  (forall g v, range d = Some g ->
               spec_working_name (basename p) = v ++ "."%char :: g ->
               contains ("."%char :: g) v = false) ->
  contains (L ".diff") (filename d) = false /\
  match range d with
  | None => filename d = spec_working_name (basename p)
  | Some g => spec_working_name (basename p) = filename d ++ "."%char :: g
  end.
Proof.
  intros Hd Hw Hg. apply returned_record in Hd.
  remember (content d) as c eqn:Hc. clear Hc. subst d.
  unfold record_of, name_of_path, range_of_path in *.
  cbn [filename range] in *.
  destruct (spec_working_name_cases (basename p)) as [(w & En & Ew)|(Hn & Ew)];
    rewrite Ew in *.
  - assert (Eb : replace (L ".diff") [] (basename p) = w).
    { rewrite En. apply (replace_trailing "."%char (L "diff")); [|exact Hw].
      cbn. intuition discriminate. }
    rewrite Eb.
    destruct (search_range (basename p)) as [g|] eqn:Es; [|now split].
    destruct (search_range_sound _ _ Es) as (Sg & pre & tail & E & Ht).
    rewrite En in E.
    change (pre ++ "."%char :: g ++ L ".diff" ++ tail)
      with (pre ++ ["."%char] ++ g ++ L ".diff" ++ tail) in E.
    rewrite 2!app_assoc in E.
    apply dollar_after_f in E as [_ E]; [|exact Ht].
    rewrite <- app_assoc in E. cbn [app] in E. rewrite E in Hw, Hg |- *.
    rewrite (replace_trailing "."%char g pre (dot_is_no_digit_or_dash g Sg)
               (Hg g pre eq_refl eq_refl)).
    split; [|reflexivity]. now apply contains_app_l in Hw.
  - assert (Eb : replace (L ".diff") [] (basename p) = basename p)
      by (apply replace_absent; now apply first_index_none_contains).
    rewrite Eb.
    destruct (search_range (basename p)) as [g|] eqn:Es; [|now split].
    exfalso. destruct (search_range_sound _ _ Es) as (_ & pre & tail & E & _).
    assert (Hc : contains (L ".diff") (basename p) = true).
    { apply contains_iff. exists (pre ++ "."%char :: g), tail.
      rewrite E, <- app_assoc. reflexivity. }
    congruence.
Qed.

Lemma C10_trailing_suffix_is_removed_witness :
  exists d,
    parse_diff_file (fs_present []) (L "src/main.py.1-42.diff") = Return (Some d) /\
    contains (L ".diff") (spec_working_name (basename (L "src/main.py.1-42.diff")))
      = false /\
    contains (L ".diff") (filename d) = false /\
    filename d = L "main.py".
Proof.
  exists (record_of (L "src/main.py.1-42.diff") []).
  split; [vm_compute; reflexivity|].
  split; [vm_compute; reflexivity|].
  assert (Hg : forall g v,
             range (record_of (L "src/main.py.1-42.diff") []) = Some g ->
             spec_working_name (basename (L "src/main.py.1-42.diff"))
               = v ++ "."%char :: g ->
             contains ("."%char :: g) v = false).
  { intros g v Hr Hv. vm_compute in Hr. injection Hr as <-.
    change (spec_working_name (basename (L "src/main.py.1-42.diff")))
      with (L "main.py" ++ "."%char :: L "1-42") in Hv.
    apply app_inv_tail in Hv. subst v. reflexivity. }
  destruct (C10_trailing_suffix_is_removed (fs_present [])
              (L "src/main.py.1-42.diff")
              (record_of (L "src/main.py.1-42.diff") [])
              (or_intror eq_refl) eq_refl Hg) as [H1 _].
  split; [exact H1|]. vm_compute. reflexivity.
Defined.

(** ** Further properties of the code *)

(** *** The filename of a record *)

Lemma subsequence_refl (s : str) : subsequence s s.
Proof. induction s; constructor; assumption. Qed.

Lemma subsequence_trans (s t u : str) :
  subsequence s t -> subsequence t u -> subsequence s u.
Proof.
  intros Hst Htu. revert s Hst.
  induction Htu as [|c t u Htu IH|c t u Htu IH]; intros s Hst.
  - exact Hst.
  - inversion Hst; subst.
    + constructor. now apply IH.
    + apply sub_drop. now apply IH.
  - apply sub_drop. now apply IH.
Qed.

Lemma subsequence_in (s t : str) (c : ascii) :
  subsequence s t -> In c s -> In c t.
Proof.
  induction 1 as [|x s t H IH|x s t H IH]; intros Hin.
  - exact Hin.
  - destruct Hin as [->|Hin]; [now left|right; now apply IH].
  - right. now apply IH.
Qed.

Lemma subsequence_length (s t : str) :
  subsequence s t -> length s <= length t.
Proof. induction 1; simpl; lia. Qed.

Lemma replace_deletes (old : str) (k : nat) (s : str) :
  subsequence (replace_from old [] k s) s.
Proof.
  revert k; induction s as [|c s IH]; intros k; cbn [replace_from].
  - constructor.
  - destruct k as [|k]; [|apply sub_drop, IH].
    destruct (starts_with old (c :: s)).
    + cbn [app]. apply sub_drop, IH.
    + apply sub_keep, IH.
Qed.

Lemma basename_from_spec (p x : str) :
  ~ In "/"%char x ->
  ~ In "/"%char (basename_from (x ++ p) p) /\
  exists dir, x ++ p = dir ++ basename_from (x ++ p) p.
Proof.
  revert x; induction p as [|c p IH]; intros x Hx; cbn [basename_from].
  - rewrite app_nil_r. split; [exact Hx|now exists []].
  - destruct (Ascii.eqb c "/") eqn:E.
    + destruct (IH [] (fun H => H)) as [Hn (dir & Hd)]. cbn [app] in *.
      split; [exact Hn|].
      exists (x ++ c :: dir). rewrite <- app_assoc. cbn [app].
      now rewrite <- Hd.
    + assert (Hx' : ~ In "/"%char (x ++ [c])).
      { intros H. apply in_app_or in H as [H|[H|[]]]; [now apply Hx|].
        subst c. discriminate. }
      destruct (IH (x ++ [c]) Hx') as [Hn Hd].
      rewrite <- app_assoc in Hn, Hd. cbn [app] in Hn, Hd. now split.
Qed.

Lemma basename_spec (p : str) :
  ~ In "/"%char (basename p) /\ exists dir, p = dir ++ basename p.
Proof. exact (basename_from_spec p [] (fun H => H)). Qed.

Lemma name_of_path_deletes (p : str) :
  subsequence (name_of_path p) (basename p).
Proof.
  unfold name_of_path.
  assert (B : subsequence (replace (L ".diff") [] (basename p)) (basename p))
    by apply replace_deletes.
  destruct (range_of_path p); [|exact B].
  eapply subsequence_trans; [apply replace_deletes|exact B].
Qed.

(** X1.  The filename of a record is the final segment of the path
    with characters left out, never with any added or reordered: it is
    no longer than that segment and holds no [/], so the directory part
    of the artifact's path never reaches the record's filename. *)
Theorem X1_filename_is_bare (fs : FileSystem) (p : str) (d : DiffInfo) :
  parse_diff_file_path fs p = Return d \/
  parse_diff_file fs p = Return (Some d) ->
  subsequence (filename d) (basename p) /\
  ~ In "/"%char (filename d) /\
  length (filename d) <= length (basename p) /\
  exists dir, p = dir ++ basename p.
Proof.
  intros H. rewrite (returned_record _ _ _ H). cbn [filename].
  pose proof (name_of_path_deletes p) as S.
  destruct (basename_spec p) as [Hn Hd].
  repeat split; [exact S| |now apply subsequence_length|exact Hd].
  intros Hin. apply Hn. now apply (subsequence_in _ _ _ S).
Qed.

Lemma X1_filename_is_bare_witness :
  exists d,
    parse_diff_file (fs_present []) (L "src/app/main.py.1-42.diff") = Return (Some d) /\
    filename d = L "main.py" /\
    ~ In "/"%char (filename d).
Proof.
  exists (record_of (L "src/app/main.py.1-42.diff") []).
  split; [vm_compute; reflexivity|]. split; [vm_compute; reflexivity|].
  exact (proj1 (proj2 (X1_filename_is_bare (fs_present [])
                         (L "src/app/main.py.1-42.diff") _ (or_intror eq_refl)))).
Defined.

(** *** The range grammar, both ways *)

Lemma at_dollar_cases (tail : str) :
  at_dollar tail = true <-> tail = [] \/ tail = [NL].
Proof.
  destruct tail as [|c [|c' tail]]; cbn [at_dollar].
  - split; [now left|reflexivity].
  - rewrite Ascii.eqb_eq. split; [intros ->; now right|].
    intros [H|H]; [discriminate|now injection H].
  - split; [discriminate|]. intros [H|H]; discriminate.
Qed.

Lemma dollar_tails_agree (x y t1 t2 : str) :
  x ++ L ".diff" ++ t1 = y ++ L ".diff" ++ t2 ->
  at_dollar t1 = true -> at_dollar t2 = true ->
  x = y /\ t1 = t2.
Proof.
  intros E H1 H2. apply at_dollar_cases in H1 as [->| ->].
  - rewrite app_nil_r in E.
    destruct (dollar_after_f _ _ _ E H2) as [-> ->]. now split.
  - apply at_dollar_cases in H2 as H2'. destruct H2' as [->| ->].
    + rewrite app_nil_r in E. symmetry in E.
      destruct (dollar_after_f _ _ _ E eq_refl) as [H _]. discriminate.
    + rewrite !app_assoc in E. apply app_inv_tail in E.
      apply app_inv_tail in E. now split.
Qed.

Lemma match_range_here_accepts (a b tail : str) :
  a <> [] -> b <> [] -> all_digits a = true -> all_digits b = true ->
  at_dollar tail = true ->
  match_range_here ("."%char :: a ++ "-"%char :: b ++ L ".diff" ++ tail)
  = Some (a ++ "-"%char :: b).
Proof.
  intros Na Nb Da Db Ht. unfold match_range_here.
  rewrite Ascii.eqb_refl.
  rewrite (span_digits_app a ("-"%char :: b ++ L ".diff" ++ tail) Da eq_refl).
  destruct a as [|x a]; [contradiction|].
  rewrite Ascii.eqb_refl.
  rewrite (span_digits_app b (L ".diff" ++ tail) Db eq_refl).
  destruct b as [|y b]; [contradiction|].
  assert (E : strip_prefix (L ".diff") (L ".diff" ++ tail) = Some tail)
    by now apply strip_prefix_iff.
  rewrite E, Ht. reflexivity.
Qed.

Lemma match_range_here_only (pre a b tail g : str) :
  all_digits a = true -> all_digits b = true -> at_dollar tail = true ->
  match_range_here (pre ++ "."%char :: a ++ "-"%char :: b ++ L ".diff" ++ tail)
  = Some g ->
  g = a ++ "-"%char :: b.
Proof.
  intros Da Db Ht H.
  destruct (match_range_here_sound _ _ H)
    as ((a' & b' & -> & _ & _ & Da' & Db') & tail' & E & Ht').
  assert (E' : (pre ++ "."%char :: a ++ "-"%char :: b) ++ L ".diff" ++ tail =
               ("."%char :: a' ++ "-"%char :: b') ++ L ".diff" ++ tail').
  { rewrite <- app_assoc. cbn [app]. rewrite <- app_assoc. exact E. }
  apply dollar_tails_agree in E' as [E' _]; [|exact Ht|exact Ht'].
  change (pre ++ "."%char :: a ++ "-"%char :: b)
    with (pre ++ ["."%char] ++ a ++ "-"%char :: b) in E'.
  change ("."%char :: a' ++ "-"%char :: b')
    with (["."%char] ++ a' ++ "-"%char :: b') in E'.
  rewrite !app_assoc in E'.
  apply sep_suffix_unique in E' as [E' ->]; [|reflexivity|exact Db|exact Db'].
  rewrite <- app_assoc in E'. cbn [app] in E'.
  change ("."%char :: a') with ([] ++ "."%char :: a') in E'.
  apply sep_suffix_unique in E' as [_ ->]; [|reflexivity|exact Da|exact Da'].
  reflexivity.
Qed.

Lemma search_range_accepts (pre a b tail : str) :
  a <> [] -> b <> [] -> all_digits a = true -> all_digits b = true ->
  at_dollar tail = true ->
  search_range (pre ++ "."%char :: a ++ "-"%char :: b ++ L ".diff" ++ tail)
  = Some (a ++ "-"%char :: b).
Proof.
  intros Na Nb Da Db Ht. induction pre as [|c pre IH].
  - cbn [app search_range].
    now rewrite (match_range_here_accepts a b tail Na Nb Da Db Ht).
  - change ((c :: pre) ++ "."%char :: a ++ "-"%char :: b ++ L ".diff" ++ tail)
      with (c :: (pre ++ "."%char :: a ++ "-"%char :: b ++ L ".diff" ++ tail)).
    cbn [search_range].
    destruct (match_range_here
                (c :: pre ++ "."%char :: a ++ "-"%char :: b ++ L ".diff" ++ tail))
      as [g|] eqn:E; [|exact IH].
    f_equal. apply (match_range_here_only (c :: pre) a b tail g Da Db Ht E).
Qed.

(** X2.  A record has the range [g] exactly when the final segment of
    its path is [<pre>.<a>-<b>.diff] for two non-empty runs of digits
    with [g] the text [<a>-<b>], possibly followed by one newline (the
    pattern's [$] accepts a final newline); whatever comes before the
    last [.<a>-<b>] plays no part. *)
Theorem X2_range_grammar (fs : FileSystem) (p g : str) (d : DiffInfo) :
  parse_diff_file_path fs p = Return d \/
  parse_diff_file fs p = Return (Some d) ->
  (range d = Some g <->
   exists pre a b tail,
     basename p = pre ++ "."%char :: a ++ "-"%char :: b ++ L ".diff" ++ tail /\
     (tail = [] \/ tail = [NL]) /\
     a <> [] /\ b <> [] /\ all_digits a = true /\ all_digits b = true /\
     g = a ++ "-"%char :: b).
Proof.
  intros H. rewrite (returned_record _ _ _ H).
  unfold record_of, range_of_path. cbn [range]. split.
  - intros Hs.
    destruct (search_range_sound _ _ Hs)
      as ((a & b & -> & Na & Nb & Da & Db) & pre & tail & E & Ht).
    exists pre, a, b, tail. rewrite <- app_assoc in E. cbn [app] in E.
    apply at_dollar_cases in Ht. now repeat split.
  - intros (pre & a & b & tail & -> & Ht & Na & Nb & Da & Db & ->).
    apply at_dollar_cases in Ht.
    now apply search_range_accepts.
Qed.

Lemma X2_range_grammar_witness :
  exists d,
    parse_diff_file_path fs_absent (L "logs/a.7-8.b.12-340.diff") = Return d /\
    range d = Some (L "12-340").
Proof.
  exists (record_of (L "logs/a.7-8.b.12-340.diff")
            (L "Error reading file: [Errno 2] No such file or directory: 'logs/a.7-8.b.12-340.diff'")).
  split; [vm_compute; reflexivity|].
  apply (proj2 (X2_range_grammar fs_absent (L "logs/a.7-8.b.12-340.diff")
                  (L "12-340") _ (or_introl eq_refl))).
  exists (L "a.7-8.b"), (L "12"), (L "340"), [].
  repeat split; try discriminate. now left.
Defined.

(** *** Printing a number and reading it back *)

Lemma digits_of_uint (d : Decimal.uint) :
  all_digits (L (NilEmpty.string_of_uint d)) = true.
Proof. induction d; cbn; auto. Qed.

Lemma value_of_uint_acc (d : Decimal.uint) (acc : positive) :
  digits_value_from (Z.pos acc) (L (NilEmpty.string_of_uint d)) =
  Z.pos (Pos.of_uint_acc d acc).
Proof.
  revert acc; induction d; intros acc; cbn [NilEmpty.string_of_uint
    list_ascii_of_string digits_value_from Pos.of_uint_acc];
    [reflexivity|..]; rewrite <- IHd; f_equal;
    try match goal with
        | |- context [digit_value ?c] =>
            let v := eval vm_compute in (digit_value c) in
            change (digit_value c) with v
        end; lia.
Qed.

Lemma value_of_uint (d : Decimal.uint) :
  digits_value (L (NilEmpty.string_of_uint d)) = Z.of_N (Pos.of_uint d).
Proof.
  unfold digits_value.
  induction d; cbn [NilEmpty.string_of_uint list_ascii_of_string
    digits_value_from Pos.of_uint]; [reflexivity|exact IHd|..];
    apply (value_of_uint_acc d).
Qed.

Lemma str_of_int_digits (n : Z) :
  (0 <= n)%Z ->
  str_of_int n <> [] /\ all_digits (str_of_int n) = true /\
  digits_value (str_of_int n) = n.
Proof.
  intros Hn. unfold str_of_int. destruct n as [|p|p]; [| |lia].
  - repeat split. discriminate.
  - cbn [Z.to_int NilZero.string_of_int].
    pose proof (Unsigned.of_to p) as E.
    assert (Hs : NilZero.string_of_uint (Pos.to_uint p) =
                 NilEmpty.string_of_uint (Pos.to_uint p)).
    { destruct (Pos.to_uint p); [discriminate E|reflexivity..]. }
    rewrite Hs. split; [|split].
    + destruct (Pos.to_uint p); [discriminate E|discriminate..].
    + apply digits_of_uint.
    + rewrite value_of_uint, E. reflexivity.
Qed.

(** X3.  Line numbers written into an artifact's name are read back
    unchanged: when the final segment of the path is
    [<pre>.<n>-<m>.diff] with [n] and [m] printed as Python prints
    non-negative integers, the record's line numbers are [n] and [m],
    and the line chosen for display and for posting is [n], whatever
    [pre] is. *)
Theorem X3_numbers_round_trip
  (fs : FileSystem) (p pre : str) (n m : Z) (d : DiffInfo) :
  (0 <= n)%Z -> (0 <= m)%Z ->
  basename p = pre ++ "."%char :: str_of_int n ++ "-"%char :: str_of_int m
               ++ L ".diff" ->
  parse_diff_file_path fs p = Return d \/
  parse_diff_file fs p = Return (Some d) ->
  range d = Some (str_of_int n ++ "-"%char :: str_of_int m) /\
  start_line d = Some n /\ end_line d = Some m /\
  display_line d = Some n /\ line_number d = Some n.
Proof.
  intros Hn Hm Hb Hd.
  destruct (str_of_int_digits n Hn) as (Nn & Dn & Vn).
  destruct (str_of_int_digits m Hm) as (Nm & Dm & Vm).
  destruct (matching_name_gives_range fs p pre _ _ d Hb Nn Nm Dn Dm Hd)
    as (Hr & Hs & He).
  rewrite Vn in Hs. rewrite Vm in He.
  unfold display_line, line_number, has_range. rewrite Hr, Hs.
  repeat split; try assumption;
    destruct (str_of_int n); try contradiction; reflexivity.
Qed.

Lemma X3_numbers_round_trip_witness :
  exists d,
    parse_diff_file_path fs_absent (L "a/b/file.c.292-29999.diff") = Return d /\
    start_line d = Some 292%Z /\ end_line d = Some 29999%Z.
Proof.
  exists (record_of (L "a/b/file.c.292-29999.diff")
            (L "Error reading file: [Errno 2] No such file or directory: 'a/b/file.c.292-29999.diff'")).
  split; [vm_compute; reflexivity|].
  destruct (X3_numbers_round_trip fs_absent (L "a/b/file.c.292-29999.diff")
              (L "file.c") 292 29999 _ ltac:(lia) ltac:(lia) eq_refl
              (or_introl eq_refl)) as (_ & Hs & He & _).
  split; assumption.
Defined.

(** *** Tokens of the batch *)

Lemma lstrip_blank (s : str) : forallb is_space s = true -> lstrip s = [].
Proof.
  induction s as [|c s IH]; [reflexivity|]. cbn [forallb lstrip].
  intros H. apply andb_true_iff in H as [-> H]. now apply IH.
Qed.

Lemma lstrip_keeps (s : str) (c : ascii) : In c (lstrip s) -> In c s.
Proof.
  induction s as [|x s IH]; [easy|]. cbn [lstrip].
  destruct (is_space x); [|easy]. intros H. right. now apply IH.
Qed.

Lemma lstrip_head (s : str) :
  match lstrip s with [] => True | c :: _ => is_space c = false end.
Proof.
  induction s as [|x s IH]; [exact I|]. cbn [lstrip].
  destruct (is_space x) eqn:E; [exact IH|exact E].
Qed.

Lemma lstrip_fixed (s : str) :
  match s with [] => True | c :: _ => is_space c = false end -> lstrip s = s.
Proof. destruct s as [|c s]; [reflexivity|]. cbn [lstrip]. now intros ->. Qed.

Lemma lstrip_idem (s : str) : lstrip (lstrip s) = lstrip s.
Proof. apply lstrip_fixed, lstrip_head. Qed.

Lemma lstrip_snoc (x : str) (c : ascii) :
  is_space c = false -> lstrip (x ++ [c]) = lstrip x ++ [c].
Proof.
  intros Hc. induction x as [|y x IH]; cbn [app lstrip].
  - now rewrite Hc.
  - destruct (is_space y); [exact IH|reflexivity].
Qed.

Lemma rstrip_cons (c : ascii) (s : str) :
  is_space c = false -> rstrip (c :: s) = c :: rstrip s.
Proof.
  intros Hc. unfold rstrip. cbn [rev].
  now rewrite (lstrip_snoc _ _ Hc), rev_app_distr.
Qed.

Lemma rstrip_keeps (s : str) (c : ascii) : In c (rstrip s) -> In c s.
Proof.
  unfold rstrip. intros H. apply in_rev in H. apply lstrip_keeps in H.
  now apply in_rev.
Qed.

Lemma strip_keeps (s : str) (c : ascii) : In c (strip s) -> In c s.
Proof. intros H. now apply lstrip_keeps, rstrip_keeps. Qed.

Lemma strip_idem (s : str) : strip (strip s) = strip s.
Proof.
  unfold strip.
  assert (E : lstrip (rstrip (lstrip s)) = rstrip (lstrip s)).
  { pose proof (lstrip_head s) as Hh. destruct (lstrip s) as [|c u].
    - reflexivity.
    - rewrite (rstrip_cons _ _ Hh). cbn [lstrip]. now rewrite Hh. }
  rewrite E. unfold rstrip at 1 2. rewrite rev_involutive, lstrip_idem.
  reflexivity.
Qed.

Lemma strip_blank (s : str) : forallb is_space s = true -> strip s = [].
Proof. intros H. unfold strip. now rewrite (lstrip_blank _ H). Qed.

Lemma split_pieces (sep : ascii) (s t : str) (c : ascii) :
  In t (split sep s) -> In c t -> In c s /\ Ascii.eqb c sep = false.
Proof.
  revert t; induction s as [|x s IH]; intros t Ht Hc; cbn [split] in Ht.
  - destruct Ht as [<-|[]]. destruct Hc.
  - destruct (Ascii.eqb x sep) eqn:E.
    + destruct Ht as [<-|Ht]; [destruct Hc|].
      destruct (IH _ Ht Hc) as [H1 H2]. split; [now right|exact H2].
    + pose proof (split_not_nil sep s) as N.
      destruct (split sep s) as [|u us]; [contradiction|].
      destruct Ht as [<-|Ht].
      * destruct Hc as [<-|Hc]; [split; [now left|exact E]|].
        destruct (IH u (or_introl eq_refl) Hc) as [H1 H2].
        split; [now right|exact H2].
      * destruct (IH t (or_intror Ht) Hc) as [H1 H2].
        split; [now right|exact H2].
Qed.

Lemma token_is_clean (csv t : str) :
  In t (tokens csv) ->
  t <> [] /\ ~ In ","%char t /\ strip t = t /\ (forall c, In c t -> In c csv).
Proof.
  intros H. apply in_tokens in H as [H Ht]. apply in_map_iff in H as (u & <- & Hu).
  split; [now apply truthy_iff|]. split; [|split].
  - intros Hc. apply strip_keeps in Hc.
    destruct (split_pieces _ _ _ _ Hu Hc) as [_ E]. discriminate.
  - apply strip_idem.
  - intros c Hc. apply strip_keeps in Hc.
    now destruct (split_pieces _ _ _ _ Hu Hc).
Qed.

Lemma parse_loop_paths (fs : FileSystem) (paths : list str) :
  forall acc rs,
    parse_loop fs paths acc = Return rs ->
    exists rs',
      rs = acc ++ rs' /\
      map full_path rs' = filter (path_exists fs) (filter truthy paths).
Proof.
  induction paths as [|p rest IH]; intros acc rs; cbn [parse_loop filter].
  - intros [= <-]. exists []. now rewrite app_nil_r.
  - destruct (truthy p) eqn:Tp; cbn [negb filter]; [|apply IH].
    rewrite parse_diff_file_eq. destruct (path_exists fs p) eqn:Ep.
    + destruct (read_content fs p) as [c|e]; cbn [bind]; [|discriminate].
      intros H. destruct (IH _ _ H) as (rs' & -> & Hm).
      exists (record_of p c :: rs'). rewrite <- app_assoc. split; [reflexivity|].
      cbn [map full_path record_of]. now rewrite Hm.
    + cbn [bind]. apply IH.
Qed.

Lemma parse_loop_blank (fs : FileSystem) (paths : list str) (acc : list DiffInfo) :
  filter truthy paths = [] -> parse_loop fs paths acc = Return acc.
Proof.
  induction paths as [|p rest IH]; [reflexivity|]. cbn [filter parse_loop].
  destruct (truthy p); [discriminate|]. exact IH.
Qed.

Lemma tool_loop_blank (fs : FileSystem) (paths : list str) :
  filter truthy paths = [] -> tool_loop fs paths = Return [].
Proof.
  induction paths as [|p rest IH]; [reflexivity|]. cbn [filter tool_loop].
  destruct (truthy p); [discriminate|]. exact IH.
Qed.

Lemma blank_input_has_no_token (csv : str) :
  (forall c, In c csv -> c = ","%char \/ is_space c = true) ->
  tokens csv = [].
Proof.
  intros H. unfold tokens.
  destruct (filter truthy (map strip (split "," csv))) as [|t ts] eqn:E;
    [reflexivity|exfalso].
  assert (Ht : In t (filter truthy (map strip (split "," csv))))
    by (rewrite E; now left).
  apply filter_In in Ht as [Ht Tt]. apply in_map_iff in Ht as (u & <- & Hu).
  rewrite strip_blank in Tt; [discriminate|].
  apply forallb_forall. intros c Hc.
  destruct (split_pieces _ _ _ _ Hu Hc) as [Hin Hne].
  destruct (H c Hin) as [->|Hs]; [discriminate|exact Hs].
Qed.

(** X4.  An input made only of commas and whitespace names no file:
    the batch is empty on every file system, the stand-alone tool
    prints no record, and the posting tool, whatever its environment,
    makes no network call and ends with exit status 1. *)
Theorem X4_blank_batch
  (env : Env) (fs : FileSystem) (net : Network) (args : Args) :
  (forall c, In c (arg_diff_files args) -> c = ","%char \/ is_space c = true) ->
  arg_test args = false ->
  parse_diff_files fs (arg_diff_files args) = Return [] /\
  tool_main fs (arg_diff_files args) = Return [] /\
  main env fs net args = {| calls := []; ended := Exit 1 |}.
Proof.
  intros Hb Ht. pose proof (blank_input_has_no_token _ Hb) as Hk.
  assert (Hp : parse_diff_files fs (arg_diff_files args) = Return [])
    by now apply parse_loop_blank.
  split; [exact Hp|]. split; [now apply tool_loop_blank|].
  unfold main. rewrite Ht, Hp.
  destruct (client_init env) as [bb|[|e]] eqn:E; try reflexivity.
  exfalso. unfold client_init in E.
  match type of E with
  | context [if ?b then _ else _] => destruct b
  end; discriminate.
Qed.

Lemma X4_blank_batch_witness :
  main env_sample fs_locked net_accepting
    {| arg_pr := 5; arg_diff_files := L " , ,,  "; arg_comment := None;
       arg_test := false |}
  = {| calls := []; ended := Exit 1 |}.
Proof.
  apply (X4_blank_batch env_sample fs_locked net_accepting
           {| arg_pr := 5; arg_diff_files := L " , ,,  "; arg_comment := None;
              arg_test := false |}); [|reflexivity].
  cbn [arg_diff_files]. intros c Hc.
  repeat (destruct Hc as [<-|Hc]; [(now left) || (now right)|]).
  destruct Hc.
Defined.

(** X5.  The paths of the records of a batch are exactly the tokens
    that exist, in order.  Each is non-empty, holds no comma, has no
    whitespace at either end and is made of characters of the input: a
    path containing a comma, or beginning or ending with a blank,
    cannot be named in a batch. *)
Theorem X5_batch_paths_are_tokens
  (fs : FileSystem) (csv : str) (rs : list DiffInfo) :
  parse_diff_files fs csv = Return rs ->
  map full_path rs = filter (path_exists fs) (tokens csv) /\
  forall d, In d rs ->
    full_path d <> [] /\ ~ In ","%char (full_path d) /\
    strip (full_path d) = full_path d /\
    (forall c, In c (full_path d) -> In c csv) /\
    path_exists fs (full_path d) = true.
Proof.
  intros H. unfold parse_diff_files in H.
  destruct (parse_loop_paths fs _ _ _ H) as (rs' & -> & Hm).
  cbn [app]. split; [exact Hm|].
  intros d Hd. assert (Hin : In (full_path d) (map full_path rs'))
    by now apply in_map.
  rewrite Hm in Hin. apply filter_In in Hin as [Hin He].
  destruct (token_is_clean csv _ Hin) as (H1 & H2 & H3 & H4).
  now repeat split.
Qed.

Lemma X5_batch_paths_are_tokens_witness :
  exists rs,
    parse_diff_files (fs_present []) (L " a.1-2.diff ,, b c.diff ") = Return rs /\
    map full_path rs = [L "a.1-2.diff"; L "b c.diff"].
Proof.
  eexists. split; [vm_compute; reflexivity|].
  refine (eq_trans (proj1 (X5_batch_paths_are_tokens (fs_present [])
            (L " a.1-2.diff ,, b c.diff ") _ eq_refl)) _).
  vm_compute. reflexivity.
Defined.

(** *** The client and the runs of the posting tool *)

Lemma client_init_cases (env : Env) :
  (forallb (fun k => truthy (getenv env k [])) required_settings = false /\
   client_init env = Raise ValueError) \/
  (forallb (fun k => truthy (getenv env k [])) required_settings = true /\
   client_init env =
   Return {| server := getenv env (L "BITBUCKET_SERVER")
                         (L "https://api.bitbucket.org/1.0");
             workspace := getenv env (L "BITBUCKET_WORKSPACE") [];
             repo := getenv env (L "BITBUCKET_REPO") [];
             username := getenv env (L "BITBUCKET_USERNAME") [];
             app_password := getenv env (L "BITBUCKET_APP_PASSWORD") [];
             headers :=
               [(L "Authorization",
                 authorization (getenv env (L "BITBUCKET_USERNAME") [])
                   (getenv env (L "BITBUCKET_APP_PASSWORD") []));
                (L "Content-Type", L "application/json");
                (L "Accept", L "application/json")] |}).
Proof.
  unfold client_init, required_settings. cbn [forallb].
  destruct (truthy (getenv env (L "BITBUCKET_WORKSPACE") []) &&
            (truthy (getenv env (L "BITBUCKET_REPO") []) &&
             (truthy (getenv env (L "BITBUCKET_USERNAME") []) &&
              (truthy (getenv env (L "BITBUCKET_APP_PASSWORD") []) && true))));
    [right|left]; now split.
Qed.

(** X6.  The client is refused with [ValueError] whenever one of the
    four required settings is absent or empty, and the run then ends
    with exit status 1 in every mode, before any network call and
    whatever the files are.  For settings that are text of the kind
    modelled here (code points below 256, which UTF-8 always encodes)
    that is the only case: otherwise the client is built and holds the
    four values.  The server address alone has a default, used only
    when the setting is absent (an empty one is kept as it is). *)
Theorem X6_required_settings
  (env : Env) (fs : FileSystem) (net : Network) (args : Args) :
  ((exists k, In k required_settings /\
              (env k = None \/ env k = Some [])) <->
   client_init env = Raise ValueError) /\
  (client_init env = Raise ValueError ->
   main env fs net args = {| calls := []; ended := Exit 1 |}) /\
  (forall bb, client_init env = Return bb ->
     server bb = match env (L "BITBUCKET_SERVER") with
                 | Some v => v
                 | None => L "https://api.bitbucket.org/1.0"
                 end /\
     env (L "BITBUCKET_WORKSPACE") = Some (workspace bb) /\
     env (L "BITBUCKET_REPO") = Some (repo bb) /\
     env (L "BITBUCKET_USERNAME") = Some (username bb) /\
     env (L "BITBUCKET_APP_PASSWORD") = Some (app_password bb) /\
     workspace bb <> [] /\ repo bb <> [] /\
     username bb <> [] /\ app_password bb <> []).
Proof.
  assert (Hset : forall k, truthy (getenv env k []) = false <->
                           env k = None \/ env k = Some []).
  { intros k. unfold getenv. destruct (env k) as [[|c v]|]; cbn;
      split; intros H; try discriminate; auto; destruct H; discriminate. }
  assert (Hval : forall k, truthy (getenv env k []) = true ->
                           env k = Some (getenv env k []) /\ getenv env k [] <> []).
  { intros k. unfold getenv. destruct (env k) as [[|c v]|]; cbn;
      intros H; try discriminate. now split. }
  split; [|split].
  - split.
    + intros (k & Hk & Hm). apply Hset in Hm.
      destruct (client_init_cases env) as [[_ E]|[A _]]; [exact E|].
      rewrite forallb_forall in A. rewrite (A k Hk) in Hm. discriminate.
    + intros E. destruct (client_init_cases env) as [[A _]|[_ E']];
        [|congruence].
      destruct (forallb_forall (fun k => truthy (getenv env k []))
                  required_settings) as [_ F].
      destruct (existsb (fun k => negb (truthy (getenv env k [])))
                  required_settings) eqn:X.
      * apply existsb_exists in X as (k & Hk & Hn).
        exists k. split; [exact Hk|]. apply Hset.
        now apply negb_true_iff.
      * exfalso. rewrite F in A; [discriminate|].
        intros k Hk. destruct (truthy (getenv env k [])) eqn:T; [reflexivity|].
        assert (existsb (fun k => negb (truthy (getenv env k [])))
                  required_settings = true)
          by (apply existsb_exists; exists k; now rewrite T).
        congruence.
  - intros E. unfold main. now rewrite E.
  - intros bb E. destruct (client_init_cases env) as [[_ E']|[A E']];
      [congruence|].
    rewrite E' in E. injection E as <-. cbn [server workspace repo username
      app_password]. rewrite forallb_forall in A.
    destruct (Hval (L "BITBUCKET_WORKSPACE")) as [W1 W2];
      [apply A; cbn; tauto|].
    destruct (Hval (L "BITBUCKET_REPO")) as [R1 R2]; [apply A; cbn; tauto|].
    destruct (Hval (L "BITBUCKET_USERNAME")) as [U1 U2]; [apply A; cbn; tauto|].
    destruct (Hval (L "BITBUCKET_APP_PASSWORD")) as [P1 P2];
      [apply A; cbn; tauto|].
    unfold getenv at 1. now repeat split.
Qed.

(** X7.  In test mode the run makes exactly one call, a GET of
    [<server>/user] with the client's headers and a timeout of 10, and
    posts nothing; the files and the list of diff files play no part.
    It can end with exit status 0 only when that call is answered with
    a status outside 400..599 and a body that is a JSON object.  With
    a standard output that accepts what the program prints (console
    output is not modelled), it ends with 0 in exactly that case and
    with 1 in every other. *)
Theorem X7_test_mode
  (env : Env) (fs : FileSystem) (net : Network) (args : Args) (bb : Client) :
  client_init env = Return bb ->
  arg_test args = true ->
  calls (main env fs net args) =
    [{| call_method := GET; call_url := server bb ++ L "/user";
        call_headers := headers bb; call_json := None; call_timeout := 10 |}] /\
  (ended (main env fs net args) = Exit 0 \/
   ended (main env fs net args) = Exit 1) /\
  (ended (main env fs net args) = Exit 0 <->
   exists r,
     net [] (test_connection_call bb) = Responded r /\
     ((status_code r < 400)%Z \/ (600 <= status_code r)%Z) /\
     json_is_object r = true).
Proof.
  intros Hc Ht. unfold main. rewrite Hc, Ht. cbn [calls ended].
  split; [reflexivity|]. unfold test_connection, raises_for_status.
  destruct (net [] (test_connection_call bb)) as [r|e|e].
  - destruct ((400 <=? status_code r)%Z) eqn:A;
      destruct ((status_code r <? 600)%Z) eqn:B;
      destruct (json_is_object r) eqn:J; cbn [negb andb];
      (split; [auto|]); split;
      try discriminate;
      try (intros _; exists r; split; [reflexivity|]; split; [lia|exact J]);
      intros (r' & [= <-] & Hs & Hj); try congruence; lia.
  - split; [auto|]. split; [discriminate|]. intros (r & [=] & _).
  - split; [auto|]. split; [discriminate|]. intros (r & [=] & _).
Qed.

Lemma X7_test_mode_witness :
  calls (main env_sample fs_absent net_accepting
           {| arg_pr := 1; arg_diff_files := L "a.1-2.diff"; arg_comment := None;
              arg_test := true |})
  = [{| call_method := GET;
        call_url := L "https://api.bitbucket.org/1.0/user";
        call_headers :=
          [(L "Authorization", L "Basic dXNlcjpwYXNz");
           (L "Content-Type", L "application/json");
           (L "Accept", L "application/json")];
        call_json := None; call_timeout := 10 |}].
Proof.
  destruct (client_init env_sample) as [bb|e] eqn:E; [|discriminate E].
  refine (eq_trans (proj1 (X7_test_mode env_sample fs_absent net_accepting
            {| arg_pr := 1; arg_diff_files := L "a.1-2.diff";
               arg_comment := None; arg_test := true |} bb E eq_refl)) _).
  vm_compute in E. injection E as <-. vm_compute. reflexivity.
Defined.

(** *** The posting loop *)

Lemma post_loop_spec (net : Network) (bb : Client) (pr : Z) (comment : str)
  (diff_data : list DiffInfo) :
  (forall h c e, net h c <> OtherError e) ->
  forall history n,
    post_loop net bb pr comment diff_data history n =
    (history ++
       map (fun d => post_call bb pr (filename d) (line_number d)
                       (comment_text comment d)) diff_data,
     Return (n + count_occ bool_dec
                   (verdicts net history
                      (map (fun d => post_call bb pr (filename d) (line_number d)
                                       (comment_text comment d)) diff_data))
                   true)).
Proof.
  intros Hnet. induction diff_data as [|d rest IH]; intros history n.
  - cbn. now rewrite app_nil_r, Nat.add_0_r.
  - cbn [post_loop map verdicts]. unfold post_inline_comment, accepted.
    destruct (net history (post_call bb pr (filename d) (line_number d)
                             (comment_text comment d))) as [r|e|e] eqn:E.
    + rewrite IH, <- app_assoc. cbn [app].
      destruct ((status_code r =? 200)%Z || (status_code r =? 201)%Z);
        cbn [count_occ bool_dec bool_rec bool_rect];
        do 2 f_equal; lia.
    + rewrite IH, <- app_assoc. cbn [app].
      cbn [count_occ bool_dec bool_rec bool_rect]. reflexivity.
    + exfalso. exact (Hnet _ _ _ E).
Qed.

Lemma count_true_all (l : list bool) :
  count_occ bool_dec l true = length l <-> forallb (fun b => b) l = true.
Proof.
  assert (B : forall l, count_occ bool_dec l true <= length l).
  { intros l'. induction l' as [|b l' IH]; [cbn; lia|].
    cbn [count_occ length]. destruct (bool_dec b true); lia. }
  induction l as [|b l IH]; [cbn; tauto|].
  cbn [count_occ length forallb]. destruct b.
  - destruct (bool_dec true true); [|congruence]. cbn [andb].
    rewrite <- IH. lia.
  - destruct (bool_dec false true); [discriminate|]. cbn [andb].
    pose proof (B l). split; [lia|discriminate].
Qed.

Lemma verdicts_all (net : Network) (cs : list Call) :
  forall history,
    forallb (fun b => b) (verdicts net history cs) = true <->
    (forall i c, nth_error cs i = Some c ->
       exists r, net (history ++ firstn i cs) c = Responded r /\
                 (status_code r = 200 \/ status_code r = 201)%Z).
Proof.
  assert (A : forall x, accepted x = true <->
                exists r, x = Responded r /\
                          (status_code r = 200 \/ status_code r = 201)%Z).
  { intros [r|e|e]; cbn [accepted].
    - rewrite orb_true_iff, !Z.eqb_eq. split.
      + intros H. now exists r.
      + now intros (r' & [= <-] & H).
    - split; [discriminate|]. now intros (r & [=] & _).
    - split; [discriminate|]. now intros (r & [=] & _). }
  induction cs as [|c0 cs IH]; intros history; cbn [verdicts forallb].
  - split; [|reflexivity]. intros _ [|i] c; discriminate.
  - rewrite andb_true_iff, A, IH. split.
    + intros [H0 H] [|i] c; cbn [nth_error firstn].
      * intros [= <-]. now rewrite app_nil_r.
      * intros Hi. specialize (H i c Hi).
        now rewrite <- app_assoc in H.
    + intros H. split.
      * specialize (H 0 c0 eq_refl). cbn [firstn] in H.
        now rewrite app_nil_r in H.
      * intros i c Hi. specialize (H (S i) c Hi). cbn [firstn] in H.
        now rewrite <- app_assoc.
Qed.

(** X8.  With a client and a non-empty batch, the run posts once for
    every record, in the order of the batch, whatever the answers are:
    a rejected or failed post does not stop the loop or change the
    later posts.  It ends with exit status 0 when every post was
    answered with status 200 or 201, and with 1 otherwise; each answer
    is the one given after the posts before it.  (The network is
    assumed to fail only with request exceptions.) *)
Theorem X8_one_post_per_record
  (env : Env) (fs : FileSystem) (net : Network) (args : Args)
  (bb : Client) (diff_data : list DiffInfo) :
  client_init env = Return bb ->
  arg_test args = false ->
  parse_diff_files fs (arg_diff_files args) = Return diff_data ->
  diff_data <> [] ->
  (forall h c e, net h c <> OtherError e) ->
  calls (main env fs net args) =
    map (fun d => post_call bb (arg_pr args) (filename d) (line_number d)
                    (comment_text (default_comment (arg_comment args)) d))
        diff_data /\
  ended (main env fs net args) =
    Exit (if forallb (fun b => b) (verdicts net [] (calls (main env fs net args)))
          then 0 else 1) /\
  (ended (main env fs net args) = Exit 0 <->
   forall i c,
     nth_error (calls (main env fs net args)) i = Some c ->
     exists r,
       net (firstn i (calls (main env fs net args))) c = Responded r /\
       (status_code r = 200 \/ status_code r = 201)%Z).
Proof.
  intros Hc Ht Hp Hne Hnet.
  cut (calls (main env fs net args) =
         map (fun d => post_call bb (arg_pr args) (filename d) (line_number d)
                         (comment_text (default_comment (arg_comment args)) d))
             diff_data /\
       ended (main env fs net args) =
         Exit (if forallb (fun b => b)
                    (verdicts net [] (calls (main env fs net args)))
               then 0 else 1)).
  { intros [H1 H2]. split; [exact H1|]. split; [exact H2|].
    rewrite H2, <- (verdicts_all net (calls (main env fs net args)) []).
    destruct (forallb _ _); split; congruence. }
  unfold main. rewrite Hc, Ht, Hp.
  destruct diff_data as [|d rest]; [contradiction|].
  rewrite (post_loop_spec net bb (arg_pr args)
             (default_comment (arg_comment args)) (d :: rest) Hnet [] 0).
  cbn [app calls ended Nat.add]. split; [reflexivity|]. f_equal.
  set (cs := map _ (d :: rest)).
  assert (Hl : length (verdicts net [] cs) = length (d :: rest)).
  { assert (G : forall h l, length (verdicts net h l) = length l).
    { intros h l; revert h; induction l as [|c l IH]; intros h;
        [reflexivity|]. cbn. now rewrite IH. }
    rewrite G. unfold cs. apply length_map. }
  destruct (forallb (fun b => b) (verdicts net [] cs)) eqn:F.
  - apply count_true_all in F. rewrite F, Hl. now rewrite Nat.eqb_refl.
  - destruct (count_occ bool_dec (verdicts net [] cs) true =? length (d :: rest))
      eqn:Q; [|reflexivity].
    apply Nat.eqb_eq in Q. rewrite <- Hl in Q. apply count_true_all in Q.
    congruence.
Qed.

Lemma X8_one_post_per_record_witness :
  exists run,
    run = main env_sample (fs_present (L "x")) net_second_rejected
            {| arg_pr := 12; arg_diff_files := L "a.1-2.diff, b.diff,c.3-4.diff";
               arg_comment := None; arg_test := false |} /\
    map call_json (calls run) =
      [Some {| payload_content := L "Code review finding" ++ [NL] ++ L "File: `a`"
                                  ++ [NL] ++ L "Line: 1";
               payload_line_to := Some 1%Z; payload_filename := L "a" |};
       Some {| payload_content := L "Code review finding" ++ [NL] ++ L "File: `b`";
               payload_line_to := Some 1%Z; payload_filename := L "b" |};
       Some {| payload_content := L "Code review finding" ++ [NL] ++ L "File: `c`"
                                  ++ [NL] ++ L "Line: 3";
               payload_line_to := Some 3%Z; payload_filename := L "c" |}] /\
    ended run = Exit 1.
Proof.
  eexists. split; [reflexivity|].
  destruct (client_init env_sample) as [bb|e] eqn:E; [|discriminate E].
  destruct (parse_diff_files (fs_present (L "x")) (L "a.1-2.diff, b.diff,c.3-4.diff"))
    as [dd|e] eqn:P; [|discriminate P].
  destruct (X8_one_post_per_record env_sample (fs_present (L "x"))
              net_second_rejected
              {| arg_pr := 12; arg_diff_files := L "a.1-2.diff, b.diff,c.3-4.diff";
                 arg_comment := None; arg_test := false |} bb dd E eq_refl P)
    as (Hcalls & Hend & _).
  - vm_compute in P. injection P as <-. discriminate.
  - intros h c e. discriminate.
  - split; [|exact (eq_trans Hend ltac:(vm_compute; reflexivity))].
    rewrite Hcalls. vm_compute in E, P. injection E as <-. injection P as <-.
    vm_compute. reflexivity.
Defined.

(** *** The Authorization header *)

Lemma unsextet_sextet (x5 x4 x3 x2 x1 x0 : bool) :
  unsextet (sextet x5 x4 x3 x2 x1 x0) = Some [x5; x4; x3; x2; x1; x0].
Proof. destruct x5, x4, x3, x2, x1, x0; reflexivity. Qed.

Lemma sextet_is_no_pad (x5 x4 x3 x2 x1 x0 : bool) :
  Ascii.eqb (sextet x5 x4 x3 x2 x1 x0) "=" = false.
Proof. destruct x5, x4, x3, x2, x1, x0; reflexivity. Qed.

Lemma b64_round_trip_bounded (n : nat) (bytes : list ascii) :
  length bytes <= n -> b64decode (b64encode bytes) = Some bytes.
Proof.
  revert bytes; induction n as [|n IH]; intros bytes Hn.
  - destruct bytes; [reflexivity|cbn in Hn; lia].
  - destruct bytes as [|[a0 a1 a2 a3 a4 a5 a6 a7] bytes]; [reflexivity|].
    destruct bytes as [|[b0 b1 b2 b3 b4 b5 b6 b7] bytes].
    + cbn [b64encode b64decode]. rewrite !unsextet_sextet.
      cbn [Ascii.eqb Bool.eqb]. reflexivity.
    + destruct bytes as [|[c0 c1 c2 c3 c4 c5 c6 c7] bytes].
      * cbn [b64encode b64decode]. rewrite !unsextet_sextet, sextet_is_no_pad.
        cbn [Ascii.eqb Bool.eqb]. reflexivity.
      * cbn [b64encode b64decode].
        rewrite !unsextet_sextet, !sextet_is_no_pad.
        rewrite IH by (cbn in Hn; lia). reflexivity.
Qed.

Lemma b64_round_trip (bytes : list ascii) :
  b64decode (b64encode bytes) = Some bytes.
Proof. exact (b64_round_trip_bounded (length bytes) bytes (Nat.le_refl _)). Qed.

Lemma b64_length_bounded (n : nat) (bytes : list ascii) :
  length bytes <= n ->
  length (b64encode bytes) = 4 * ((length bytes + 2) / 3).
Proof.
  revert bytes; induction n as [|n IH]; intros bytes Hn.
  - destruct bytes; [reflexivity|cbn in Hn; lia].
  - destruct bytes as [|[a0 a1 a2 a3 a4 a5 a6 a7] bytes]; [reflexivity|].
    destruct bytes as [|[b0 b1 b2 b3 b4 b5 b6 b7] bytes]; [reflexivity|].
    destruct bytes as [|[c0 c1 c2 c3 c4 c5 c6 c7] bytes]; [reflexivity|].
    cbn [b64encode length]. rewrite IH by (cbn in Hn; lia).
    replace (S (S (S (length bytes))) + 2) with (length bytes + 2 + 1 * 3) by lia.
    rewrite Nat.div_add by discriminate. lia.
Qed.

Lemma utf8_round_trip (s : str) : utf8_decode (utf8_encode s) = Some s.
Proof.
  induction s as [|c s IH]; [reflexivity|].
  unfold utf8_encode in *. cbn [flat_map].
  destruct c as [b0 b1 b2 b3 b4 b5 b6 b7].
  destruct b7; cbn [utf8_char app].
  - destruct b0, b1, b2, b3, b4, b5, b6; cbn [utf8_decode];
      rewrite IH; reflexivity.
  - destruct b0, b1, b2, b3, b4, b5, b6; cbn [utf8_decode];
      rewrite IH; reflexivity.
Qed.

(** X9.  The [Authorization] header is [Basic ] followed by base64
    text, four characters for every three bytes of the UTF-8 form of
    [username:password], from which those bytes and that text can be
    read back exactly.  Two pairs of settings therefore give the same
    header exactly when their texts [username:password] are equal. *)
Theorem X9_authorization_header (u p u' p' : str) :
  (exists encoded,
     authorization u p = L "Basic " ++ encoded /\
     length encoded = 4 * ((length (utf8_encode (u ++ L ":" ++ p)) + 2) / 3) /\
     option_map utf8_decode (b64decode encoded) = Some (Some (u ++ L ":" ++ p))) /\
  (authorization u p = authorization u' p' <->
   u ++ L ":" ++ p = u' ++ L ":" ++ p').
Proof.
  split.
  - exists (b64encode (utf8_encode (u ++ L ":" ++ p))). split; [reflexivity|].
    split; [apply (b64_length_bounded _ _ (Nat.le_refl _))|].
    now rewrite b64_round_trip; cbn [option_map]; rewrite utf8_round_trip.
  - split; [|unfold authorization; now intros ->].
    unfold authorization. intros H. apply app_inv_head in H.
    apply (f_equal b64decode) in H. rewrite !b64_round_trip in H.
    injection H as H. apply (f_equal utf8_decode) in H.
    rewrite !utf8_round_trip in H. now injection H.
Qed.

(** *** The stand-alone tool *)

Lemma tool_print_loop_spec (fs : FileSystem) (paths : list str) :
  forall printed,
    match tool_loop fs paths with
    | Return ds =>
        tool_print_loop fs paths printed =
        (printed ++ flat_map print_record ds, Return tt)
    | Raise e => snd (tool_print_loop fs paths printed) = Raise e
    end.
Proof.
  induction paths as [|p rest IH]; intros printed;
    cbn [tool_loop tool_print_loop].
  - cbn. now rewrite app_nil_r.
  - destruct (truthy p); cbn [negb]; [|apply IH].
    destruct (parse_diff_file_path fs p) as [d|e]; cbn [bind]; [|reflexivity].
    specialize (IH (printed ++ print_record d)).
    destruct (tool_loop fs rest) as [ds|e]; cbn [bind]; [|exact IH].
    rewrite IH, <- app_assoc. reflexivity.
Qed.

Lemma range_line_of_parsed (fs : FileSystem) (p : str) (d : DiffInfo) :
  parse_diff_file_path fs p = Return d ->
  (nth 1 (print_record d) [] = L "Range: No range found" <-> range d = None).
Proof.
  intros H.
  destruct (returned_range fs p d (or_introl H))
    as [(Hr & _)|(a & b & _ & _ & Na & _ & Da & _ & _ & _ & Hr & _)];
    unfold print_record, has_range; rewrite Hr; cbn [nth].
  - tauto.
  - destruct a as [|c a]; [contradiction|]. cbn [app truthy].
    split; [|discriminate]. intros E. exfalso.
    cbn in E. injection E as E _. subst c. discriminate Da.
Qed.

Lemma forall2_right {A B : Type} (R : A -> B -> Prop) (l : list A)
  (l' : list B) (y : B) :
  Forall2 R l l' -> In y l' -> exists x, In x l /\ R x y.
Proof.
  induction 1 as [|x y' l l' Hxy HF IH]; intros Hin; [destruct Hin|].
  destruct Hin as [<-|Hin].
  - exists x. split; [now left|exact Hxy].
  - destruct (IH Hin) as (x' & Hx' & Hr). exists x'. split; [now right|exact Hr].
Qed.

(** X10.  Called with anything but exactly one argument, the tool
    prints its two usage lines and ends with exit status 1.  Called
    with one, and provided no read fails in a way the parser does not
    catch, it prints six texts for every non-empty token, in order
    (name, range, path, a heading, the content or the read error, a
    rule of 80 [=]) and ends with status 0: a missing file does not
    stop it.  The range text is [Range: No range found] exactly for
    the records without a range. *)
Theorem X10_tool_output (fs : FileSystem) (argv : list str) :
  (length argv <> 2 -> tool_run fs argv = (tool_usage, Exit 1)) /\
  (forall prog input_files,
     argv = [prog; input_files] ->
     (forall t, In t (tokens input_files) ->
                stored_content (read_text fs t) <> None) ->
     exists ds,
       Forall2 (fun t d => parse_diff_file_path fs t = Return d)
               (tokens input_files) ds /\
       tool_run fs argv = (flat_map print_record ds, Exit 0) /\
       length (fst (tool_run fs argv)) = 6 * length (tokens input_files) /\
       forall d, In d ds ->
         nth 4 (print_record d) [] = content d /\
         (nth 1 (print_record d) [] = L "Range: No range found" <->
          range d = None)).
Proof.
  split.
  - intros Hl. destruct argv as [|a [|b [|c argv]]]; try reflexivity.
    now contradiction Hl.
  - intros prog input_files -> Hok.
    destruct (tool_loop_spec fs (map strip (split "," input_files)))
      as (ds & Hl & Hf).
    { intros t Ht Tt. apply Hok. apply in_tokens. now split. }
    exists ds. fold (tokens input_files) in Hf.
    pose proof (tool_print_loop_spec fs (map strip (split "," input_files)) [])
      as Hp. rewrite Hl in Hp. cbn [app] in Hp.
    assert (Hr : tool_run fs [prog; input_files] =
                 (flat_map print_record ds, Exit 0)).
    { unfold tool_run. now rewrite Hp. }
    split; [exact Hf|]. split; [exact Hr|]. split.
    + rewrite Hr. cbn [fst]. rewrite (Forall2_length Hf).
      clear. induction ds as [|d ds IH]; [reflexivity|].
      cbn [flat_map]. rewrite length_app, IH. cbn [print_record length]. lia.
    + intros d Hd. split; [reflexivity|].
      destruct (forall2_right _ _ _ d Hf Hd) as (t & _ & Ht).
      exact (range_line_of_parsed fs t d Ht).
Qed.

(** *** The lines of a formatted comment *)

Lemma no_sep_forallb (sep : ascii) (t : str) :
  ~ In sep t -> forallb (fun c => negb (Ascii.eqb c sep)) t = true.
Proof.
  intros H. apply forallb_forall. intros c Hc. apply negb_true_iff.
  destruct (Ascii.eqb c sep) eqn:E; [|reflexivity].
  apply Ascii.eqb_eq in E. subst c. contradiction.
Qed.

Lemma split_join (sep : ascii) (parts : list str) :
  parts <> [] -> Forall (fun t => ~ In sep t) parts ->
  split sep (join [sep] parts) = parts.
Proof.
  induction parts as [|x rest IH]; [contradiction|]. intros _ HF.
  inversion HF as [|? ? Hx Hrest]; subst.
  destruct rest as [|y rest].
  - cbn [join]. now apply split_without_sep, no_sep_forallb.
  - rewrite join_cons by discriminate. cbn [app].
    rewrite split_at_sep by now apply no_sep_forallb.
    rewrite IH; [reflexivity|discriminate|exact Hrest].
Qed.

Lemma str_of_int_chars (n : Z) (c : ascii) :
  In c (str_of_int n) -> is_digit c = true \/ c = "-"%char.
Proof.
  assert (U : forall d, all_digits (L (NilZero.string_of_uint d)) = true).
  { intros d. destruct d; try apply digits_of_uint. reflexivity. }
  assert (D : forall d, In c (L (NilZero.string_of_uint d)) -> is_digit c = true).
  { intros d Hc. specialize (U d). unfold all_digits in U.
    rewrite forallb_forall in U. now apply U. }
  unfold str_of_int. destruct n as [|p|p]; cbn [Z.to_int NilZero.string_of_int].
  - intros H. left. now apply (D Decimal.zero).
  - intros H. left. now apply (D (Pos.to_uint p)).
  - cbn [list_ascii_of_string]. intros [<-|H]; [now right|].
    left. now apply (D (Pos.to_uint p)).
Qed.

(** X11.  When neither the base text nor the filename holds a newline,
    the lines of the formatted comment are its parts, one each: the
    base text first, then the file line if the filename is not empty,
    then the line-number line if a line is given, and nothing else. *)
Theorem X11_comment_lines (comment filename : str) (line : option Z) :
  ~ In NL comment -> ~ In NL filename ->
  split NL (format_comment comment filename line) =
  [comment]
  ++ (if truthy filename then [L "File: `" ++ filename ++ L "`"] else [])
  ++ (match line with
      | Some n => [L "Line: " ++ str_of_int n]
      | None => []
      end).
Proof.
  intros Hc Hf. unfold format_comment. apply split_join; [discriminate|].
  unfold comment_parts. constructor; [exact Hc|].
  apply Forall_app. split.
  - destruct (truthy filename); constructor; [|constructor].
    intros H. apply in_app_or in H as [H|H].
    + cbn in H. intuition discriminate.
    + apply in_app_or in H as [H|H]; [now apply Hf|].
      cbn in H. intuition discriminate.
  - destruct line as [n|]; constructor; [|constructor].
    intros H. apply in_app_or in H as [H|H].
    + cbn in H. intuition discriminate.
    + apply str_of_int_chars in H as [H|H]; discriminate.
Qed.

Lemma X11_comment_lines_witness :
  split NL (format_comment (L "msg") (L "foo.py") (Some 5%Z)) =
  [L "msg"; L "File: `foo.py`"; L "Line: 5"].
Proof.
  refine (eq_trans (X11_comment_lines (L "msg") (L "foo.py") (Some 5%Z) _ _) _).
  - cbn. intuition discriminate.
  - cbn. intuition discriminate.
  - reflexivity.
Defined.



(** *** Batches joined by a comma *)

Lemma split_app (sep : ascii) (a b : str) :
  split sep (a ++ sep :: b) = split sep a ++ split sep b.
Proof.
  induction a as [|c a IH]; cbn [app split].
  - now rewrite Ascii.eqb_refl.
  - destruct (Ascii.eqb c sep); [now rewrite IH|].
    rewrite IH. pose proof (split_not_nil sep a) as N.
    destruct (split sep a) as [|t ts]; [contradiction|]. reflexivity.
Qed.

Lemma parse_loop_acc (fs : FileSystem) (paths : list str) (acc : list DiffInfo) :
  parse_loop fs paths acc =
  (rs <- parse_loop fs paths [] ;; Return (acc ++ rs)).
Proof.
  revert acc. induction paths as [|p rest IH]; intros acc; cbn [parse_loop].
  - cbn. now rewrite app_nil_r.
  - destruct (negb (truthy p)); [apply IH|].
    destruct (parse_diff_file fs p) as [[d|]|e]; cbn [bind];
      [|apply IH|reflexivity].
    rewrite (IH (acc ++ [d])), (IH ([] ++ [d])).
    destruct (parse_loop fs rest []) as [rs|e]; cbn [bind app];
      [|reflexivity].
    now rewrite <- app_assoc.
Qed.

Lemma parse_loop_app (fs : FileSystem) (l1 l2 : list str) (acc : list DiffInfo) :
  parse_loop fs (l1 ++ l2) acc =
  (r1 <- parse_loop fs l1 acc ;; parse_loop fs l2 r1).
Proof.
  revert acc. induction l1 as [|p rest IH]; intros acc; cbn [app parse_loop].
  - reflexivity.
  - destruct (negb (truthy p)); [apply IH|].
    destruct (parse_diff_file fs p) as [[d|]|e]; cbn [bind];
      [apply IH|apply IH|reflexivity].
Qed.

(** X13.  Joining two inputs with a comma joins their batches: the
    records of the first input come first, then those of the second,
    and the run fails exactly when one of the two would, with the
    failure of the earlier one. *)
Theorem X13_batches_concatenate (fs : FileSystem) (a b : str) :
  parse_diff_files fs (a ++ ","%char :: b) =
  (ra <- parse_diff_files fs a ;;
   rb <- parse_diff_files fs b ;;
   Return (ra ++ rb)) /\
  tokens (a ++ ","%char :: b) = tokens a ++ tokens b.
Proof.
  split.
  - unfold parse_diff_files. rewrite split_app, map_app, parse_loop_app.
    destruct (parse_loop fs (map strip (split "," a)) []) as [ra|e];
      cbn [bind]; [|reflexivity].
    apply parse_loop_acc.
  - unfold tokens. now rewrite split_app, map_app, filter_app.
Qed.

(** *** A read failure that is not caught *)

Lemma parse_loop_raises (fs : FileSystem) (paths : list str) (t e : str) :
  In t paths -> truthy t = true -> path_exists fs t = true ->
  read_text fs t = OtherFailure e ->
  forall acc, exists e', parse_loop fs paths acc = Raise (Uncaught e').
Proof.
  intros Hin Tt Et Rt. induction paths as [|p rest IH]; [destruct Hin|].
  intros acc. cbn [parse_loop].
  destruct (truthy p) eqn:Tp; cbn [negb].
  - rewrite parse_diff_file_eq. destruct (path_exists fs p) eqn:Ep.
    + unfold read_content.
      destruct (read_text fs p) as [x|x|x|x|x] eqn:Rp; cbn [bind];
        try (destruct Hin as [->|Hin]; [congruence|now apply IH]).
      now exists x.
    + cbn [bind]. destruct Hin as [->|Hin]; [congruence|now apply IH].
  - destruct Hin as [->|Hin]; [congruence|now apply IH].
Qed.

(** X14.  Only three kinds of read failure are absorbed.  If a token
    names a path that exists and whose read fails in another way (a
    directory, for instance), the batch fails as a whole, and the run
    of the posting tool ends in that failure without having posted
    anything, also for the tokens that could be read. *)
Theorem X14_uncaught_read_failure
  (env : Env) (fs : FileSystem) (net : Network) (args : Args)
  (bb : Client) (t e : str) :
  client_init env = Return bb ->
  arg_test args = false ->
  In t (tokens (arg_diff_files args)) ->
  path_exists fs t = true ->
  read_text fs t = OtherFailure e ->
  exists e',
    parse_diff_files fs (arg_diff_files args) = Raise (Uncaught e') /\
    main env fs net args = {| calls := []; ended := Crash (Uncaught e') |}.
Proof.
  intros Hc Ht Hin He Hr. apply in_tokens in Hin as [Hin Tt].
  destruct (parse_loop_raises fs _ t e Hin Tt He Hr []) as [e' E].
  exists e'. split; [exact E|].
  unfold main. rewrite Hc, Ht. unfold parse_diff_files in *. now rewrite E.
Qed.

Lemma X14_uncaught_read_failure_witness :
  main env_sample fs_with_directory net_accepting
    {| arg_pr := 3; arg_diff_files := L "a.1-2.diff,docs"; arg_comment := None;
       arg_test := false |}
  = {| calls := [];
       ended := Crash (Uncaught (L "[Errno 21] Is a directory: 'docs'")) |}.
Proof.
  destruct (client_init env_sample) as [bb|x] eqn:E; [|discriminate E].
  destruct (X14_uncaught_read_failure env_sample fs_with_directory net_accepting
              {| arg_pr := 3; arg_diff_files := L "a.1-2.diff,docs";
                 arg_comment := None; arg_test := false |}
              bb (L "docs") (L "[Errno 21] Is a directory: 'docs'")
              E eq_refl ltac:(vm_compute; tauto) eq_refl eq_refl)
    as (e' & Hp & Hm).
  vm_compute in Hp. injection Hp as <-. exact Hm.
Defined.

(** ** The claims about the whole pipeline *)

Lemma parse_loop_records (fs : FileSystem) (paths : list str) :
  forall acc rs,
    parse_loop fs paths acc = Return rs ->
    exists rs',
      rs = acc ++ rs' /\
      Forall2 (fun t d => parse_diff_file fs t = Return (Some d))
              (filter (path_exists fs) (filter truthy paths)) rs'.
Proof.
  induction paths as [|p rest IH]; intros acc rs; cbn [parse_loop filter].
  - intros [= <-]. exists []. rewrite app_nil_r. split; [reflexivity|constructor].
  - destruct (truthy p) eqn:Tp; cbn [negb filter]; [|apply IH].
    pose proof (parse_diff_file_eq fs p) as E.
    destruct (path_exists fs p) eqn:Ep.
    + destruct (read_content fs p) as [c|e]; cbn [bind] in E; rewrite E;
        cbn [bind]; [|discriminate].
      intros H. destruct (IH _ _ H) as (rs' & -> & HF).
      exists (record_of p c :: rs'). rewrite <- app_assoc.
      split; [reflexivity|]. constructor; assumption.
    + rewrite E. cbn [bind]. apply IH.
Qed.

Lemma batch_records (fs : FileSystem) (csv : str) (rs : list DiffInfo) :
  parse_diff_files fs csv = Return rs ->
  Forall2 (fun t d => parse_diff_file fs t = Return (Some d))
          (filter (path_exists fs) (tokens csv)) rs.
Proof.
  intros H. destruct (parse_loop_records fs _ _ _ H) as (rs' & -> & HF).
  exact HF.
Qed.

Lemma batch_record_is_parsed (fs : FileSystem) (csv : str)
  (rs : list DiffInfo) (d : DiffInfo) :
  parse_diff_files fs csv = Return rs -> In d rs ->
  exists t, In t (tokens csv) /\ path_exists fs t = true /\
            parse_diff_file fs t = Return (Some d).
Proof.
  intros H Hd.
  destruct (forall2_right _ _ _ d (batch_records fs csv rs H) Hd)
    as (t & Ht & Hp).
  apply filter_In in Ht as [Ht He]. now exists t.
Qed.

Lemma comment_text_spec (base : str) (d : DiffInfo) :
  comment_text base d =
  join [NL] (spec_comment_lines base (filename d) (display_line d))
  ++ spec_block (content d).
Proof.
  unfold comment_text, format_comment, comment_parts, spec_comment_lines,
    spec_block, wants_snippet, fenced, diff_lines.
  assert (F : (if truthy (filename d)
               then [L "File: `" ++ filename d ++ L "`"] else []) =
              match filename d with
              | [] => []
              | _ :: _ => [L "File: `" ++ filename d ++ L "`"]
              end) by now destruct (filename d).
  rewrite F. destruct (content d) as [|c0 raw]; cbn [truthy andb].
  - now rewrite app_nil_r.
  - destruct (contains (L "+++") (c0 :: raw)); [reflexivity|].
    now rewrite app_nil_r.
Qed.

Lemma lines_of_parsed (fs : FileSystem) (t : str) (d : DiffInfo) :
  parse_diff_file fs t = Return (Some d) ->
  match range d with
  | None => display_line d = None /\ line_number d = Some 1%Z
  | Some _ => exists n, start_line d = Some n /\
                        display_line d = Some n /\ line_number d = Some n
  end.
Proof.
  intros H. pose proof (parsed_has_range fs t d (or_intror H)) as R.
  unfold display_line, line_number. destruct (range d).
  - destruct R as (-> & n & ->). now exists n.
  - now rewrite R.
Qed.

Lemma post_loop_calls (net : Network) (bb : Client) (pr : Z) (comment : str)
  (diff_data : list DiffInfo) :
  forall history n,
    exists k,
      k <= length diff_data /\
      fst (post_loop net bb pr comment diff_data history n) =
        history ++
        map (fun d => post_call bb pr (filename d) (line_number d)
                        (comment_text comment d)) (firstn k diff_data) /\
      ((forall h c e, net h c <> OtherError e) -> k = length diff_data).
Proof.
  induction diff_data as [|d rest IH]; intros history n.
  - exists 0. cbn. rewrite app_nil_r. now repeat split.
  - cbn [post_loop].
    destruct (post_inline_comment net history bb pr (filename d)
                (line_number d) (comment_text comment d)) as [b|e] eqn:E.
    + destruct (IH (history ++ [post_call bb pr (filename d) (line_number d)
                                   (comment_text comment d)])
                  (if b then S n else n)) as (k & Hk & Hc & Hall).
      exists (S k). cbn [length firstn map]. split; [lia|]. split.
      * rewrite Hc, <- app_assoc. reflexivity.
      * intros Hn. now rewrite (Hall Hn).
    + exists 1. cbn [length firstn map fst]. split; [lia|].
      split; [reflexivity|]. intros Hn. exfalso.
      unfold post_inline_comment in E.
      destruct (net history (post_call bb pr (filename d) (line_number d)
                               (comment_text comment d))) eqn:N;
        try discriminate E. exact (Hn _ _ _ N).
Qed.

Lemma main_calls (env : Env) (fs : FileSystem) (net : Network) (args : Args)
  (bb : Client) (rs : list DiffInfo) :
  client_init env = Return bb ->
  arg_test args = false ->
  parse_diff_files fs (arg_diff_files args) = Return rs ->
  exists k,
    k <= length rs /\
    calls (main env fs net args) =
      map (fun d => post_call bb (arg_pr args) (filename d) (line_number d)
                      (comment_text (default_comment (arg_comment args)) d))
          (firstn k rs) /\
    ((forall h c e, net h c <> OtherError e) -> k = length rs).
Proof.
  intros Hc Ht Hp. unfold main. rewrite Hc, Ht, Hp.
  destruct rs as [|d rest].
  - exists 0. now repeat split.
  - destruct (post_loop_calls net bb (arg_pr args)
                (default_comment (arg_comment args)) (d :: rest) [] 0)
      as (k & Hk & Hcalls & Hall).
    exists k. split; [exact Hk|]. split; [|exact Hall].
    destruct (post_loop net bb (arg_pr args)
                (default_comment (arg_comment args)) (d :: rest) [] 0)
      as [history [sc|e]]; cbn [fst app] in Hcalls; cbn [calls]; exact Hcalls.
Qed.

Lemma in_firstn {A : Type} (k : nat) (l : list A) (x : A) :
  In x (firstn k l) -> In x l.
Proof.
  revert l; induction k as [|k IH]; intros [|y l] H; try destruct H.
  - now left.
  - right. now apply IH.
Qed.

Lemma forall2_map {A B : Type} (P : A -> B -> Prop) (f : A -> B) (l : list A) :
  (forall x, In x l -> P x (f x)) -> Forall2 P l (map f l).
Proof.
  induction l as [|x l IH]; intros H; [constructor|].
  constructor; [apply H; now left|]. apply IH. intros y Hy. apply H. now right.
Qed.

Lemma forall2_nth {A B : Type} (P : A -> B -> Prop) (l : list A) (l' : list B) :
  Forall2 P l l' ->
  forall i y, nth_error l' i = Some y ->
    exists x, nth_error l i = Some x /\ P x y.
Proof.
  induction 1 as [|x y' l l' Hxy HF IH]; intros [|i] y; cbn [nth_error];
    try discriminate.
  - intros [= <-]. now exists x.
  - apply IH.
Qed.

Lemma nth_firstn {A : Type} (k i : nat) (l : list A) (x : A) :
  nth_error (firstn k l) i = Some x -> nth_error l i = Some x.
Proof.
  revert i l; induction k as [|k IH]; intros i [|y l]; cbn [firstn];
    try (destruct i; discriminate).
  destruct i as [|i]; cbn [nth_error]; [easy|apply IH].
Qed.

(** Every call of a posting run is the post for the record at its
    place in the batch, with the text and the line the specification
    gives for it. *)
Lemma posts_follow_records (env : Env) (fs : FileSystem) (net : Network)
  (args : Args) (bb : Client) (rs : list DiffInfo) :
  client_init env = Return bb ->
  arg_test args = false ->
  parse_diff_files fs (arg_diff_files args) = Return rs ->
  exists k,
    k <= length rs /\
    ((forall h c e, net h c <> OtherError e) -> k = length rs) /\
    Forall2
      (fun d call =>
         match range d with
         | None =>
             display_line d = None /\ line_number d = Some 1%Z /\
             posted_with (default_comment (arg_comment args)) d
               None (Some 1%Z) call
         | Some _ =>
             exists n,
               start_line d = Some n /\
               display_line d = Some n /\ line_number d = Some n /\
               posted_with (default_comment (arg_comment args)) d
                 (Some n) (Some n) call
         end)
      (firstn k rs) (calls (main env fs net args)).
Proof.
  intros Hc Ht Hp.
  destruct (main_calls env fs net args bb rs Hc Ht Hp) as (k & Hk & Hcalls & Hall).
  exists k. split; [exact Hk|]. split; [exact Hall|].
  rewrite Hcalls. apply forall2_map. intros d Hd. apply in_firstn in Hd.
  destruct (batch_record_is_parsed fs _ rs d Hp Hd) as (t & _ & _ & Hpt).
  pose proof (lines_of_parsed fs t d Hpt) as R.
  unfold posted_with, post_call. cbn [call_method call_json].
  rewrite comment_text_spec. destruct (range d).
  - destruct R as (n & Hs & -> & ->). exists n. now repeat split.
  - destruct R as (-> & ->). now repeat split.
Qed.

Lemma forall2_left {A B : Type} (P : A -> B -> Prop) (l : list A)
  (l' : list B) (x : A) :
  Forall2 P l l' -> In x l -> exists y, In y l' /\ P x y.
Proof.
  induction 1 as [|x' y l l' Hxy HF IH]; intros Hin; [destruct Hin|].
  destruct Hin as [<-|Hin].
  - exists y. split; [now left|exact Hxy].
  - destruct (IH Hin) as (y' & Hy' & Hp). exists y'. split; [now right|exact Hp].
Qed.

Lemma forall2_weaken {A B : Type} (P Q : A -> B -> Prop) (l : list A)
  (l' : list B) :
  Forall2 P l l' ->
  (forall x y, In x l -> P x y -> Q x y) ->
  Forall2 Q l l'.
Proof.
  induction 1 as [|x y l l' Hxy HF IH]; intros H; constructor.
  - apply H; [now left|exact Hxy].
  - apply IH. intros x' y' Hx'. apply H. now right.
Qed.

Lemma parse_loop_skips_blanks (fs : FileSystem) (paths : list str)
  (acc : list DiffInfo) :
  parse_loop fs paths acc = parse_loop fs (filter truthy paths) acc.
Proof.
  revert acc; induction paths as [|p rest IH]; intros acc; [reflexivity|].
  cbn [parse_loop filter]. destruct (truthy p) eqn:Tp; cbn [negb]; [|apply IH].
  cbn [parse_loop]. rewrite Tp. cbn [negb].
  destruct (parse_diff_file fs p) as [[d|]|e]; cbn [bind];
    [apply IH|apply IH|reflexivity].
Qed.

Lemma main_empty_batch (env : Env) (fs : FileSystem) (net : Network)
  (args : Args) :
  arg_test args = false ->
  parse_diff_files fs (arg_diff_files args) = Return [] ->
  main env fs net args = {| calls := []; ended := Exit 1 |}.
Proof.
  intros Ht Hp. unfold main. rewrite Ht, Hp.
  destruct (client_init env) as [bb|[|e]] eqn:E; try reflexivity.
  exfalso. unfold client_init in E.
  match type of E with
  | context [if ?b then _ else _] => destruct b
  end; discriminate.
Qed.

Lemma spec_block_cases (raw : str) :
  spec_block raw =
  if wants_snippet raw
  then [NL; NL] ++ L "```" ++ [NL]
       ++ join [NL] (firstn 8 (split NL raw)) ++ [NL] ++ L "```"
  else [].
Proof. unfold spec_block, wants_snippet. now destruct raw. Qed.

(** C1 (amended).  When the read of a path succeeds or fails with
    not-found, permission-denied or invalid-encoding,
    [parse_diff_file_path] returns a record and does not raise, and
    after such a failure the record's content is
    ["Error reading file: "] followed by the failure's description.
    [parse_diff_file] does the same for a path that [os.path.exists]
    reports present: the record is in every batch that
    [parse_diff_files] returns for an input with the path among its
    tokens, and a posting run on such an input (client built, not test
    mode, the network failing only with request exceptions) makes one
    call per record of the batch, among them the post of this record,
    with the text and line formatted as for any record.  For a path
    reported absent [parse_diff_file] returns no record: no record of
    a returned batch has it as its path, every call a posting run
    makes is the post of a record with another path, and a run that
    is not in test mode on an input naming this path alone ends with
    exit status 1 and no call. *)
Theorem C1_read_failure_is_absorbed (fs : FileSystem) (p c : str) :
  stored_content (read_text fs p) = Some c ->
  (forall e, read_text fs p = NotFound e \/
             read_text fs p = PermissionDenied e \/
             read_text fs p = DecodeFailure e ->
             c = L "Error reading file: " ++ e) /\
  (exists d, parse_diff_file_path fs p = Return d /\
             content d = c /\ full_path d = p /\
             (path_exists fs p = true ->
              parse_diff_file fs p = Return (Some d) /\
              (truthy p = true -> parse_loop fs [p] [] = Return [d]) /\
              (forall csv rs,
                 parse_diff_files fs csv = Return rs ->
                 In p (tokens csv) -> In d rs) /\
              (forall env net args bb rs,
                 client_init env = Return bb ->
                 arg_test args = false ->
                 parse_diff_files fs (arg_diff_files args) = Return rs ->
                 In p (tokens (arg_diff_files args)) ->
                 (forall h k e, net h k <> OtherError e) ->
                 length (calls (main env fs net args)) = length rs /\
                 exists call shown line,
                   In call (calls (main env fs net args)) /\
                   posted_with (default_comment (arg_comment args)) d
                     shown line call))) /\
  (path_exists fs p = false ->
   parse_diff_file fs p = Return None /\ parse_loop fs [p] [] = Return [] /\
   (forall csv rs,
      parse_diff_files fs csv = Return rs ->
      forall r, In r rs -> full_path r <> p) /\
   (forall env net args bb rs,
      client_init env = Return bb ->
      arg_test args = false ->
      parse_diff_files fs (arg_diff_files args) = Return rs ->
      exists k,
        k <= length rs /\
        Forall2 (fun r call =>
                   full_path r <> p /\
                   exists shown line,
                     posted_with (default_comment (arg_comment args)) r
                       shown line call)
                (firstn k rs) (calls (main env fs net args))) /\
   (forall env net args,
      arg_test args = false ->
      tokens (arg_diff_files args) = [p] ->
      main env fs net args = {| calls := []; ended := Exit 1 |})).
Proof.
  intros Hc. split; [|split].
  - intros e [H|[H|H]]; rewrite H in Hc; now inversion Hc.
  - exists (record_of p c).
    apply read_content_stored in Hc.
    rewrite parse_diff_file_path_eq, Hc.
    split; [reflexivity|]. split; [reflexivity|]. split; [reflexivity|].
    intros He.
    assert (Hp : parse_diff_file fs p = Return (Some (record_of p c)))
      by (rewrite parse_diff_file_eq, He, Hc; reflexivity).
    assert (Hin_batch : forall csv rs,
               parse_diff_files fs csv = Return rs ->
               In p (tokens csv) -> In (record_of p c) rs).
    { intros csv rs Hr Hin.
      assert (Hf : In p (filter (path_exists fs) (tokens csv)))
        by (apply filter_In; now split).
      destruct (forall2_left _ _ _ p (batch_records fs _ rs Hr) Hf)
        as (d' & Hd' & Hp').
      rewrite Hp in Hp'. now injection Hp' as ->. }
    split; [exact Hp|]. split; [|split; [exact Hin_batch|]].
    + intros Tp. cbn [parse_loop]. rewrite Tp. cbn [negb]. now rewrite Hp.
    + intros env net args bb rs Hb Ht Hr Hin Hnet.
      pose proof (Hin_batch _ _ Hr Hin) as Hd.
      destruct (posts_follow_records env fs net args bb rs Hb Ht Hr)
        as (k & _ & Hall & HF).
      rewrite (Hall Hnet), firstn_all in HF.
      split; [symmetry; exact (Forall2_length HF)|].
      destruct (forall2_left _ _ _ _ HF Hd) as (call & Hcall & P).
      exists call. destruct (range (record_of p c)).
      * destruct P as (n & _ & _ & _ & P). now exists (Some n), (Some n).
      * destruct P as (_ & _ & P). now exists None, (Some 1%Z).
  - intros He.
    assert (Hp : parse_diff_file fs p = Return None)
      by (rewrite parse_diff_file_eq, He; reflexivity).
    assert (Hn : forall csv rs,
               parse_diff_files fs csv = Return rs ->
               forall r, In r rs -> full_path r <> p).
    { intros csv rs Hr r Hin E.
      destruct (batch_record_is_parsed fs _ rs r Hr Hin) as (t & _ & Et & Hpt).
      assert (Ef : full_path r = t)
        by (rewrite (returned_record fs t r (or_intror Hpt)); reflexivity).
      congruence. }
    split; [exact Hp|]. split.
    { cbn [parse_loop]. rewrite Hp. now destruct (negb (truthy p)). }
    split; [exact Hn|]. split.
    + intros env net args bb rs Hb Ht Hr.
      destruct (posts_follow_records env fs net args bb rs Hb Ht Hr)
        as (k & Hk & _ & HF).
      exists k. split; [exact Hk|].
      apply (forall2_weaken _ _ _ _ HF).
      intros r call Hr' P.
      split; [apply (Hn _ _ Hr); now apply (in_firstn k)|].
      destruct (range r).
      * destruct P as (n & _ & _ & _ & P). now exists (Some n), (Some n).
      * destruct P as (_ & _ & P). now exists None, (Some 1%Z).
    + intros env net args Ht Htok. apply main_empty_batch; [exact Ht|].
      unfold parse_diff_files. rewrite parse_loop_skips_blanks.
      fold (tokens (arg_diff_files args)). rewrite Htok.
      assert (Tp : truthy p = true).
      { assert (In p (tokens (arg_diff_files args))) by (rewrite Htok; now left).
        now apply in_tokens in H. }
      cbn [parse_loop]. rewrite Tp, Hp. reflexivity.
Qed.

Lemma C1_read_failure_is_absorbed_witness :
  stored_content (read_text fs_locked (L "src/a.py.3-9.diff")) =
    Some (L "Error reading file: [Errno 13] Permission denied: 'src/a.py.3-9.diff'") /\
  exists d,
    parse_diff_file_path fs_locked (L "src/a.py.3-9.diff") = Return d /\
    content d =
      L "Error reading file: [Errno 13] Permission denied: 'src/a.py.3-9.diff'" /\
    exists call shown line,
      In call (calls (main env_sample fs_locked net_accepting
                        {| arg_pr := 4; arg_diff_files := L "src/a.py.3-9.diff";
                           arg_comment := None; arg_test := false |})) /\
      posted_with (L "Code review finding") d shown line call.
Proof.
  split; [reflexivity|].
  destruct (C1_read_failure_is_absorbed fs_locked (L "src/a.py.3-9.diff")
              (L "Error reading file: [Errno 13] Permission denied: 'src/a.py.3-9.diff'")
              eq_refl) as (_ & (d & Hd & Hc & _ & Hex) & _).
  exists d. split; [exact Hd|]. split; [exact Hc|].
  destruct (Hex eq_refl) as (_ & _ & _ & Hm).
  destruct (client_init env_sample) as [bb|x] eqn:E; [|discriminate E].
  destruct (parse_diff_files fs_locked (L "src/a.py.3-9.diff")) as [rs|x] eqn:P;
    [|discriminate P].
  destruct (Hm env_sample net_accepting
              {| arg_pr := 4; arg_diff_files := L "src/a.py.3-9.diff";
                 arg_comment := None; arg_test := false |} bb rs E eq_refl P)
    as (_ & Hcall).
  - vm_compute. now left.
  - intros h k e. discriminate.
  - exact Hcall.
Defined.

(** *** The batch, for every input *)

Lemma tool_loop_raises (fs : FileSystem) (paths : list str) (t : str) :
  In t paths -> truthy t = true ->
  stored_content (read_text fs t) = None ->
  exists e, tool_loop fs paths = Raise (Uncaught e).
Proof.
  intros Hin Tt St. induction paths as [|p rest IH]; [destruct Hin|].
  cbn [tool_loop]. destruct (truthy p) eqn:Tp; cbn [negb].
  - rewrite parse_diff_file_path_eq. unfold read_content.
    destruct (read_text fs p) as [x|x|x|x|x] eqn:Rp; cbn [bind];
      try (destruct Hin as [->|Hin];
           [rewrite Rp in St; discriminate St|];
           destruct (IH Hin) as [e ->]; cbn [bind]; now exists e).
    now exists x.
  - destruct Hin as [->|Hin]; [congruence|now apply IH].
Qed.

(** C4 (amended).  For every comma-delimited input string: the input
    is split on commas, each token trimmed and empty tokens dropped.
    If some remaining token names a path that exists and whose read
    fails with an exception other than the three caught,
    [parse_diff_files] raises; otherwise it returns, in the order of
    the tokens, exactly one record for each remaining token whose path
    [os.path.exists] reports present, and none for the others.  The
    loop of the stand-alone tool raises if the read of some remaining
    token fails with such an exception, and otherwise produces one
    record per remaining token, in order.  With the three files of the
    example present and readable, the batch is three records: [a]
    without range, [b] with (1, 5), [c] with (9, 10); the stand-alone
    tool gives these three even when the files are missing. *)
Theorem C4_batch_keeps_order (fs : FileSystem) (csv : str) :
  ((exists t, In t (tokens csv) /\ path_exists fs t = true /\
              stored_content (read_text fs t) = None) ->
   exists e, parse_diff_files fs csv = Raise (Uncaught e)) /\
  ((forall t, In t (tokens csv) -> path_exists fs t = true ->
              stored_content (read_text fs t) <> None) ->
   exists rs,
     parse_diff_files fs csv = Return rs /\
     Forall2 (fun t d => parse_diff_file fs t = Return (Some d))
             (filter (path_exists fs) (tokens csv)) rs) /\
  ((exists t, In t (tokens csv) /\ stored_content (read_text fs t) = None) ->
   exists e, tool_main fs csv = Raise (Uncaught e)) /\
  ((forall t, In t (tokens csv) -> stored_content (read_text fs t) <> None) ->
   exists ds,
     tool_main fs csv = Return ds /\
     Forall2 (fun t d => parse_diff_file_path fs t = Return d) (tokens csv) ds) /\
  (exists da db dc,
     parse_diff_files (fs_present []) (L "a.diff, b.1-5.diff , ,c.9-10.diff")
       = Return [da; db; dc] /\
     (filename da, start_line da, end_line da) = (L "a", None, None) /\
     (filename db, start_line db, end_line db) = (L "b", Some 1%Z, Some 5%Z) /\
     (filename dc, start_line dc, end_line dc) = (L "c", Some 9%Z, Some 10%Z)) /\
  (exists da db dc,
     tool_main fs_absent (L "a.diff, b.1-5.diff , ,c.9-10.diff")
       = Return [da; db; dc] /\
     (filename da, start_line da, end_line da) = (L "a", None, None) /\
     (filename db, start_line db, end_line db) = (L "b", Some 1%Z, Some 5%Z) /\
     (filename dc, start_line dc, end_line dc) = (L "c", Some 9%Z, Some 10%Z)).
Proof.
  split; [|split; [|split; [|split; [|split]]]].
  - intros (t & Ht & Et & St). apply in_tokens in Ht as [Ht Tt].
    destruct (read_text fs t) as [x|x|x|x|x] eqn:Rt; try discriminate St.
    exact (parse_loop_raises fs _ t x Ht Tt Et Rt []).
  - intros Hok. unfold parse_diff_files.
    destruct (parse_loop_spec fs (map strip (split "," csv))) with (acc := @nil DiffInfo)
      as (rs & Hl & Hf).
    + intros t Ht Tt. apply Hok. apply in_tokens. now split.
    + exists rs. split; assumption.
  - intros (t & Ht & St). apply in_tokens in Ht as [Ht Tt].
    exact (tool_loop_raises fs _ t Ht Tt St).
  - intros Hall. unfold tool_main. apply tool_loop_spec.
    intros t Ht Tt. apply Hall. apply in_tokens. now split.
  - do 3 eexists. split; [vm_compute; reflexivity|].
    repeat split.
  - do 3 eexists. split; [vm_compute; reflexivity|].
    repeat split.
Qed.

Lemma C4_batch_keeps_order_witness :
  (forall t, In t (tokens (L "a.diff, b.1-5.diff , ,c.9-10.diff")) ->
             path_exists fs_locked t = true ->
             stored_content (read_text fs_locked t) <> None) /\
  exists rs,
    parse_diff_files fs_locked (L "a.diff, b.1-5.diff , ,c.9-10.diff") = Return rs /\
    Forall2 (fun t d => parse_diff_file fs_locked t = Return (Some d))
            [L "a.diff"; L "b.1-5.diff"; L "c.9-10.diff"] rs.
Proof.
  assert (H : forall t, In t (tokens (L "a.diff, b.1-5.diff , ,c.9-10.diff")) ->
                path_exists fs_locked t = true ->
                stored_content (read_text fs_locked t) <> None)
    by (intros t _ _; discriminate).
  split; [exact H|].
  exact (proj1 (proj2 (C4_batch_keeps_order fs_locked
                         (L "a.diff, b.1-5.diff , ,c.9-10.diff"))) H).
Defined.

(** C6.  In a run of [main] that reaches the posting loop (a client
    was built, not test mode, the batch was returned), the calls made
    are, in order, the posts for the first records of the batch, and
    for all of them when the network fails only with request
    exceptions.  For a record without a range, the formatter is given
    no line: the text posted has the base text and the file line as
    its only lines before the block, no ["Line: "] line, while the
    line posted is the fixed default 1.  For a record with a range,
    the formatter and the posting call are both given the start line:
    the text has the line ["Line: "] with that number and the line
    posted is that number. *)
Theorem C6_line_selection
  (env : Env) (fs : FileSystem) (net : Network) (args : Args)
  (bb : Client) (rs : list DiffInfo) :
  client_init env = Return bb ->
  arg_test args = false ->
  parse_diff_files fs (arg_diff_files args) = Return rs ->
  exists k,
    k <= length rs /\
    ((forall h c e, net h c <> OtherError e) -> k = length rs) /\
    Forall2
      (fun d call =>
         match range d with
         | None =>
             display_line d = None /\ line_number d = Some 1%Z /\
             call_method call = POST /\
             call_json call =
               Some {| payload_content :=
                         join [NL]
                           ([default_comment (arg_comment args)]
                            ++ (match filename d with
                                | [] => []
                                | _ :: _ => [L "File: `" ++ filename d ++ L "`"]
                                end))
                         ++ spec_block (content d);
                       payload_line_to := Some 1%Z;
                       payload_filename := filename d |}
         | Some _ =>
             exists n,
               start_line d = Some n /\
               display_line d = Some n /\ line_number d = Some n /\
               call_method call = POST /\
               call_json call =
                 Some {| payload_content :=
                           join [NL]
                             ([default_comment (arg_comment args)]
                              ++ (match filename d with
                                  | [] => []
                                  | _ :: _ => [L "File: `" ++ filename d ++ L "`"]
                                  end)
                              ++ [L "Line: " ++ str_of_int n])
                           ++ spec_block (content d);
                         payload_line_to := Some n;
                         payload_filename := filename d |}
         end)
      (firstn k rs) (calls (main env fs net args)).
Proof.
  intros Hc Ht Hp.
  destruct (posts_follow_records env fs net args bb rs Hc Ht Hp)
    as (k & Hk & Hall & HF).
  exists k. split; [exact Hk|]. split; [exact Hall|].
  apply (forall2_weaken _ _ _ _ HF). intros d call _ P.
  unfold posted_with, spec_comment_lines in P. destruct (range d).
  - destruct P as (n & Hs & Hd & Hl & Hm & Hj). exists n. now repeat split.
  - destruct P as (Hd & Hl & Hm & Hj). rewrite app_nil_r in Hj.
    now repeat split.
Qed.

Lemma C6_line_selection_witness :
  exists bb rs,
    client_init env_sample = Return bb /\
    parse_diff_files (fs_present (L "text")) (L "notes.txt.diff, m.py.7-9.diff")
      = Return rs /\
    length rs = 2 /\
    length (calls (main env_sample (fs_present (L "text")) net_second_rejected
                     {| arg_pr := 12;
                        arg_diff_files := L "notes.txt.diff, m.py.7-9.diff";
                        arg_comment := Some (L "msg"); arg_test := false |}))
    = length rs.
Proof.
  destruct (client_init env_sample) as [bb|x] eqn:E; [|discriminate E].
  destruct (parse_diff_files (fs_present (L "text"))
              (L "notes.txt.diff, m.py.7-9.diff")) as [rs|x] eqn:P;
    [|discriminate P].
  exists bb, rs. split; [reflexivity|]. split; [reflexivity|].
  destruct (C6_line_selection env_sample (fs_present (L "text"))
              net_second_rejected
              {| arg_pr := 12; arg_diff_files := L "notes.txt.diff, m.py.7-9.diff";
                 arg_comment := Some (L "msg"); arg_test := false |}
              bb rs E eq_refl P) as (k & _ & Hall & HF).
  rewrite (Hall ltac:(intros h c e; discriminate)), firstn_all in HF.
  split; [|symmetry; exact (Forall2_length HF)].
  vm_compute in P. injection P as <-. reflexivity.
Defined.

Example posts_of_a_small_batch :
  map call_json
    (calls (main env_sample (fs_present (L "text")) net_second_rejected
              {| arg_pr := 12; arg_diff_files := L "notes.txt.diff, m.py.7-9.diff";
                 arg_comment := Some (L "msg"); arg_test := false |}))
  = [Some {| payload_content := L "msg" ++ [NL] ++ L "File: `notes.txt`";
             payload_line_to := Some 1%Z; payload_filename := L "notes.txt" |};
     Some {| payload_content := L "msg" ++ [NL] ++ L "File: `m.py`"
                                ++ [NL] ++ L "Line: 7";
             payload_line_to := Some 7%Z; payload_filename := L "m.py" |}].
Proof. vm_compute. reflexivity. Qed.

(** C7.  The loop of [main] appends a fenced block to the comment text
    exactly when the record's content is non-empty and has [+++]
    somewhere in it.  The block comes after the base text, the file
    line and the line-number line, which are the lines before it, and
    holds the first lines of the content, cut at newlines: eight of
    them, or all of them when there are fewer, so the block's text is
    the beginning of the content.  This is the text of the call that a
    posting run makes for the record, a call it does make when the
    network fails only with request exceptions. *)
Theorem C7_snippet_block (default : str) (d : DiffInfo) :
  (wants_snippet (content d) = true <->
   content d <> [] /\ exists a b, content d = a ++ L "+++" ++ b) /\
  comment_text default d =
    join [NL]
      ([default]
       ++ (match filename d with
           | [] => []
           | _ :: _ => [L "File: `" ++ filename d ++ L "`"]
           end)
       ++ (match display_line d with
           | Some n => [L "Line: " ++ str_of_int n]
           | None => []
           end))
    ++ (if wants_snippet (content d)
        then [NL; NL] ++ L "```" ++ [NL]
             ++ join [NL] (firstn 8 (split NL (content d)))
             ++ [NL] ++ L "```"
        else []) /\
  length (firstn 8 (split NL (content d))) =
    Nat.min 8 (length (split NL (content d))) /\
  join [NL] (split NL (content d)) = content d /\
  (exists rest,
     content d = join [NL] (firstn 8 (split NL (content d))) ++ rest) /\
  (forall env fs net args bb rs i call,
     client_init env = Return bb ->
     arg_test args = false ->
     parse_diff_files fs (arg_diff_files args) = Return rs ->
     nth_error rs i = Some d ->
     ((forall h c e, net h c <> OtherError e) ->
      exists call', nth_error (calls (main env fs net args)) i = Some call') /\
     (nth_error (calls (main env fs net args)) i = Some call ->
      exists line,
       call_json call =
         Some {| payload_content :=
                   join [NL]
                     ([default_comment (arg_comment args)]
                      ++ (match filename d with
                          | [] => []
                          | _ :: _ => [L "File: `" ++ filename d ++ L "`"]
                          end)
                      ++ (match display_line d with
                          | Some n => [L "Line: " ++ str_of_int n]
                          | None => []
                          end))
                   ++ (if wants_snippet (content d)
                       then [NL; NL] ++ L "```" ++ [NL]
                            ++ join [NL] (firstn 8 (split NL (content d)))
                            ++ [NL] ++ L "```"
                       else []);
                 payload_line_to := line;
                 payload_filename := filename d |})).
Proof.
  split; [|split; [|split; [|split; [|split]]]].
  - unfold wants_snippet. rewrite andb_true_iff, truthy_iff, contains_iff.
    reflexivity.
  - rewrite comment_text_spec, spec_block_cases. reflexivity.
  - apply length_firstn.
  - apply join_split.
  - destruct (join_firstn_prefix [NL] 8 (split NL (content d))) as [rest Hr].
    exists rest. now rewrite <- Hr, join_split.
  - intros env fs net args bb rs i call Hc Ht Hp Hd.
    destruct (posts_follow_records env fs net args bb rs Hc Ht Hp)
      as (k & _ & Hall & HF).
    split.
    { intros Hnet. rewrite (Hall Hnet), firstn_all in HF.
      pose proof (Forall2_length HF) as Hlen.
      destruct (nth_error (calls (main env fs net args)) i) as [call'|] eqn:N;
        [now exists call'|].
      apply nth_error_None in N.
      assert (i < length rs) by (apply nth_error_Some; congruence). lia. }
    intros Hcall.
    destruct (forall2_nth _ _ _ HF i call Hcall) as (d' & Hd' & P).
    apply nth_firstn in Hd'. rewrite Hd in Hd'. injection Hd' as <-.
    unfold posted_with, spec_comment_lines in P.
    rewrite spec_block_cases in P. destruct (range d).
    + destruct P as (n & _ & -> & _ & _ & J). now exists (Some n).
    + destruct P as (-> & _ & _ & J). now exists (Some 1%Z).
Qed.
